(** * OpenClaw content script: a shallow embedding and its verified properties

    The development embeds the in-page engine of [src/popup.js] (the content
    script part, lines 445-946): visibility and classification tables, the
    element descriptor, the accessibility tree builder, the Set-of-Mark
    labeller, the target resolver, the interaction simulator, the command
    dispatcher and the wait-for-selector promise.

    Modelling conventions.
    - A JavaScript string is a [string]; one character stands for one code
      unit, and [for (const char of text)] visits the characters in order.
    - A JavaScript number is an integer [Z] (fractions and NaN do not occur in
      the properties below).
    - The DOM is a tree of [Node]s.  An element carries an identity [eid]:
      a JavaScript reference to an element is modelled by that identity, and
      an in-place mutation [el.setAttribute(..)] rewrites the element of the
      tree which has this identity.
    - What the browser decides (the CSS selector engine, XPath evaluation,
      the default action of a click, scrolling) is a parameter, the class
      [Browser]; the few facts about CSS that the labeller relies on are
      stated once, in [BrowserLaws].
    - The page runs no script of its own while a command executes: dispatched
      events are recorded in a log, listeners of the page are not modelled.
    - The box and the computed style of an element are among its properties;
      writing or removing the mark attribute leaves them as they are (the
      overlay is presentational). *)

From Stdlib Require Import ZArith String Ascii List Bool Lia.
From Stdlib Require Import Numbers.DecimalString Numbers.DecimalZ Numbers.DecimalNat.
From stdpp Require Import base option list gmap strings.

Open Scope string_scope.
Open Scope Z_scope.
Open Scope list_scope.

(* ------------------------------------------------------------------------- *)
(** ** JavaScript values *)

Module Js.

Inductive Value :=
| VUndef
| VNull
| VBool (b : bool)
| VNum (n : Z)
| VStr (s : string).

(** ToBoolean. *)
Definition truthy (v : Value) : bool :=
  match v with
  | VUndef | VNull => false
  | VBool b => b
  | VNum n => negb (n =? 0)
  | VStr s => negb (String.eqb s "")
  end.

(** [String(n)] for an integer. *)
Definition NumberToString (n : Z) : string :=
  NilEmpty.string_of_int (Z.to_int n).

(** ToString, as a template literal applies it. *)
Definition ToString (v : Value) : string :=
  match v with
  | VUndef => "undefined"
  | VNull => "null"
  | VBool true => "true"
  | VBool false => "false"
  | VNum n => NumberToString n
  | VStr s => s
  end.

(** [typeof v === 'string' || typeof v === 'number'] *)
Definition isStringOrNumber (v : Value) : bool :=
  match v with
  | VNum _ | VStr _ => true
  | _ => false
  end.

(** [v === w] for a string [w] and for the boolean [w]. *)
Definition strictEqStr (v : Value) (w : string) : bool :=
  match v with VStr s => String.eqb s w | _ => false end.
Definition strictEqBool (v : Value) (w : bool) : bool :=
  match v with VBool b => Bool.eqb b w | _ => false end.

(** [a || b] on values that are a string or null ([None]). *)
Definition orElse (a b : option string) : option string :=
  match a with
  | Some s => if String.eqb s "" then b else a
  | None => b
  end.

(** What a completed evaluation leaves: a value or a thrown exception. *)
Inductive Exn :=
| Error (message : string)
| TypeError (message : string)
| DOMException (message : string).

Definition message (e : Exn) : string :=
  match e with
  | Error m | TypeError m | DOMException m => m
  end.

Inductive Completion (A : Type) :=
| Normal (a : A)
| Throw (e : Exn).
Arguments Normal {A} a.
Arguments Throw {A} e.

(** White space of [String.prototype.trim] among the one-byte code units. *)
Definition isWhiteSpace (c : ascii) : bool :=
  let n := nat_of_ascii c in
  bool_decide (n ∈ [9; 10; 11; 12; 13; 32; 160]%nat).

Fixpoint trimStart (s : string) : string :=
  match s with
  | EmptyString => EmptyString
  | String c s' => if isWhiteSpace c then trimStart s' else s
  end.

Fixpoint trimEnd (s : string) : string :=
  match s with
  | EmptyString => EmptyString
  | String c s' =>
      let r := trimEnd s' in
      if isWhiteSpace c && String.eqb r "" then EmptyString else String c r
  end.

Definition trim (s : string) : string := trimEnd (trimStart s).

(** [s.slice(0, n)] for [n >= 0]. *)
Definition slice0 (n : nat) (s : string) : string := substring 0 n s.

Definition lowerChar (c : ascii) : ascii :=
  let n := nat_of_ascii c in
  if (65 <=? n)%nat && (n <=? 90)%nat then ascii_of_nat (n + 32) else c.

Fixpoint toLowerCase (s : string) : string :=
  match s with
  | EmptyString => EmptyString
  | String c s' => String (lowerChar c) (toLowerCase s')
  end.

(** [arr.slice(0, end)]: a negative [end] counts from the end. *)
Definition sliceList {A} (e : Z) (l : list A) : list A :=
  if e <? 0 then take (Z.to_nat (Z.of_nat (length l) + e)) l
  else take (Z.to_nat e) l.

End Js.
Import Js.

(* ------------------------------------------------------------------------- *)
(** ** The page tree *)

Record Rect := { x : Z; y : Z; width : Z; height : Z }.

(** The three computed style properties [isVisible] reads. *)
Record Style := { visibility : string; display : string; opacity : string }.

Record OptionEl := { o_value : string; o_text : string; o_selected : bool }.

(** The properties of one element that the content script reads or writes.
    [value], [type], [labels], [options] and [href] are [None] where the
    JavaScript property is undefined for that kind of element; [labels]
    holds the [textContent] of each associated label element. *)
Record Props := {
  eid : nat;
  tagName : string;
  attributes : gmap string string;
  rect : Rect;
  style : Style;
  value : option string;
  type : option string;
  checked : bool;
  labels : option (list string);
  options : option (list OptionEl);
  href : option string;
  isContentEditable : bool;
}.

Definition withAttributes (f : gmap string string → gmap string string) (el : Props) : Props :=
  {| eid := eid el; tagName := tagName el; attributes := f (attributes el);
     rect := rect el; style := style el; value := value el; type := type el;
     checked := checked el; labels := labels el; options := options el;
     href := href el; isContentEditable := isContentEditable el |}.

Definition withValue (v : option string) (el : Props) : Props :=
  {| eid := eid el; tagName := tagName el; attributes := attributes el;
     rect := rect el; style := style el; value := v; type := type el;
     checked := checked el; labels := labels el; options := options el;
     href := href el; isContentEditable := isContentEditable el |}.

Definition withChecked (c : bool) (el : Props) : Props :=
  {| eid := eid el; tagName := tagName el; attributes := attributes el;
     rect := rect el; style := style el; value := value el; type := type el;
     checked := c; labels := labels el; options := options el;
     href := href el; isContentEditable := isContentEditable el |}.

Definition withOptions (o : option (list OptionEl)) (el : Props) : Props :=
  {| eid := eid el; tagName := tagName el; attributes := attributes el;
     rect := rect el; style := style el; value := value el; type := type el;
     checked := checked el; labels := labels el; options := o;
     href := href el; isContentEditable := isContentEditable el |}.

#[warnings="-register-all"]
Inductive Node :=
| Text (data : string)
| Elem (el : Props) (childNodes : list Node).

(** What a JavaScript variable holding an element gives access to: the
    element's own properties and its child nodes. *)
Definition Element : Type := Props * list Node.

Definition props (el : Element) : Props := fst el.
Definition childNodes (el : Element) : list Node := snd el.
Definition nodeOf (el : Element) : Node := Elem (props el) (childNodes el).

Definition getAttribute (el : Element) (name : string) : option string :=
  attributes (props el) !! name.

(** [node.textContent]: the text of the descendants, in order. *)
Fixpoint textContent (n : Node) : string :=
  match n with
  | Text s => s
  | Elem _ kids => fold_right (fun k acc => textContent k +:+ acc) "" kids
  end.

(** All elements of a subtree in document order, the subtree's root first. *)
Fixpoint elements (n : Node) : list Element :=
  match n with
  | Text _ => []
  | Elem el kids => (el, kids) :: flat_map elements kids
  end.

(** [el.children]: the child nodes that are elements. *)
Definition children (el : Element) : list Element :=
  flat_map (fun k => match k with Text _ => [] | Elem e ks => [(e, ks)] end)
           (childNodes el).

(** The elements strictly below [el], in document order. *)
Definition descendants (el : Element) : list Element :=
  flat_map elements (childNodes el).

(** The first element with identity [id], in document order. *)
Definition findElement (id : nat) (n : Node) : option Element :=
  List.find (fun el => Nat.eqb (eid (props el)) id) (elements n).

(** An in-place write to the element with identity [id]: its own properties
    become [f] of what they were, the tree keeps its shape. *)
Fixpoint updateProps (id : nat) (f : Props → Props) (n : Node) : Node :=
  match n with
  | Text s => Text s
  | Elem el kids =>
      Elem (if Nat.eqb (eid el) id then f el else el)
           (List.map (updateProps id f) kids)
  end.

(** [el.textContent = s]: the children of the element with identity [id]
    are replaced by one text node. *)
Fixpoint setTextContent (id : nat) (s : string) (n : Node) : Node :=
  match n with
  | Text t => Text t
  | Elem el kids =>
      if Nat.eqb (eid el) id then Elem el [Text s]
      else Elem el (List.map (setTextContent id s) kids)
  end.

(** [parent.appendChild(child)] for the element with identity [id]. *)
Fixpoint appendChild (id : nat) (child : Node) (n : Node) : Node :=
  match n with
  | Text t => Text t
  | Elem el kids =>
      if Nat.eqb (eid el) id then Elem el (kids ++ [child])
      else Elem el (List.map (appendChild id child) kids)
  end.

(** The receiver of [root.querySelectorAll]: the document or an element. *)
Inductive ParentNode :=
| DocumentNode
| ElementNode (id : nat).

(** The state of one page while a command runs. *)
Record DomEvent := { ev_target : nat; ev_type : string; ev_key : option string }.

Record Page := {
  documentElement : Node;
  url : string;
  title : string;
  readyState : string;
  viewport : Z * Z;
  scroll : Z * Z;
  activeElement : option nat;
  selectionRangeCount : nat;
  events : list DomEvent;
}.

Definition withDocument (d : Node) (p : Page) : Page :=
  {| documentElement := d; url := url p; title := title p;
     readyState := readyState p; viewport := viewport p; scroll := scroll p;
     activeElement := activeElement p;
     selectionRangeCount := selectionRangeCount p; events := events p |}.

Definition withScroll (s : Z * Z) (p : Page) : Page :=
  {| documentElement := documentElement p; url := url p; title := title p;
     readyState := readyState p; viewport := viewport p; scroll := s;
     activeElement := activeElement p;
     selectionRangeCount := selectionRangeCount p; events := events p |}.

Definition withActiveElement (a : option nat) (p : Page) : Page :=
  {| documentElement := documentElement p; url := url p; title := title p;
     readyState := readyState p; viewport := viewport p; scroll := scroll p;
     activeElement := a;
     selectionRangeCount := selectionRangeCount p; events := events p |}.

Definition withEvents (l : list DomEvent) (p : Page) : Page :=
  {| documentElement := documentElement p; url := url p; title := title p;
     readyState := readyState p; viewport := viewport p; scroll := scroll p;
     activeElement := activeElement p;
     selectionRangeCount := selectionRangeCount p; events := l |}.

(** The elements [root.querySelectorAll] ranges over: every element of the
    document, or the elements strictly below the element [root]. *)
Definition scope (root : ParentNode) (d : Node) : list Element :=
  match root with
  | DocumentNode => elements d
  | ElementNode id =>
      match findElement id d with
      | Some el => descendants el
      | None => []
      end
  end.

(** The current state of the element that [el] refers to. *)
Definition live (p : Page) (el : Element) : Element :=
  default el (findElement (eid (props el)) (documentElement p)).

(** [document.head] and [document.body]: the first such child of the root
    element, when the root element is [html]. *)
Definition childWithTag (tags : list string) (d : Node) : option Element :=
  match d with
  | Elem el kids =>
      if String.eqb (tagName el) "HTML"
      then List.find (fun c => bool_decide (tagName (props c) ∈ tags)) (children (el, kids))
      else None
  | Text _ => None
  end.

Definition head (p : Page) : option Element := childWithTag ["HEAD"] (documentElement p).
Definition body (p : Page) : option Element := childWithTag ["BODY"; "FRAMESET"] (documentElement p).

Definition rootElement (p : Page) : option Element :=
  match documentElement p with
  | Elem el kids => Some (el, kids)
  | Text _ => None
  end.

(* ------------------------------------------------------------------------- *)
(** ** The browser, as far as the content script relies on it *)

Class Browser := {
  (** The selector engine: [None] for a string that is not a selector
      (a [SyntaxError]), otherwise the test [el.matches(selector)] in a
      given document. *)
  cssMatches : string → option (Node → Element → bool);
  (** [document.evaluate(xpath, document, null, FIRST_ORDERED_NODE_TYPE)]
      followed by [.singleNodeValue]: [None] for a string that is not an
      XPath expression (a [SyntaxError]), otherwise the node or null. *)
  xpathFirst : string → Node → option (option Element);
  (** What the browser itself does when a [click] event reaches the
      element (toggling a checkbox, following a link, ...). *)
  clickActivation : nat → Page → Page;
  (** The scroll offsets after [el.scrollIntoView(..)] and after
      [window.scrollBy(..)]. *)
  scrollIntoViewOffsets : Element → Z * Z → Z * Z;
  scrollByOffsets : Z → Z → Z * Z → Z * Z;
  (** Replacing the current selection range by a text node, the
      Selection-API branch of [typeInElement]. *)
  insertAtSelection : string → Page → Page;
}.

(* ------------------------------------------------------------------------- *)
(** ** Commands that read and write the page, and may throw *)

Definition M (A : Type) : Type := Page → Completion A * Page.

Definition ret {A} (a : A) : M A := fun p => (Normal a, p).
Definition throw {A} (e : Exn) : M A := fun p => (Throw e, p).
Definition bind {A B} (m : M A) (k : A → M B) : M B :=
  fun p => match m p with
           | (Normal a, p') => k a p'
           | (Throw e, p') => (Throw e, p')
           end.
Definition tryCatch {A} (m : M A) (handler : Exn → M A) : M A :=
  fun p => match m p with
           | (Normal a, p') => (Normal a, p')
           | (Throw e, p') => handler e p'
           end.
Definition modify (f : Page → Page) : M unit := fun p => (Normal tt, f p).
Definition liftRead {A} (f : Node → Completion A) : M A :=
  fun p => (f (documentElement p), p).

Notation "'do' x <- m ; k" := (bind m (fun x => k))
  (at level 10, x name, m at level 100, k at level 200).
Notation "m ;; k" := (bind m (fun _ => k))
  (at level 100, k at level 200, right associativity).

Fixpoint forEach {A} (f : A → M unit) (l : list A) : M unit :=
  match l with
  | [] => ret tt
  | a :: l' => f a ;; forEach f l'
  end.


(* ------------------------------------------------------------------------- *)
(** ** The content script *)

Section ContentScript.
Context {B : Browser}.

(** *** Constants *)

Definition MARK_ATTR : string := "data-openclaw-mark".
Definition MARK_STYLE_ID : string := "__openclaw_mark_styles".

(** A [Set]; it is iterated in insertion order. *)
Definition INTERACTIVE_TAGS : list string :=
  ["A"; "BUTTON"; "INPUT"; "SELECT"; "TEXTAREA"; "LABEL";
   "DETAILS"; "SUMMARY"; "VIDEO"; "AUDIO"].

Definition SEMANTIC_ROLES : gmap string string :=
  list_to_map
    [("A", "link"); ("BUTTON", "button"); ("INPUT", "textbox");
     ("SELECT", "combobox"); ("TEXTAREA", "textbox"); ("FORM", "form");
     ("NAV", "navigation"); ("MAIN", "main"); ("HEADER", "banner");
     ("FOOTER", "contentinfo"); ("ASIDE", "complementary");
     ("SECTION", "region"); ("ARTICLE", "article");
     ("H1", "heading"); ("H2", "heading"); ("H3", "heading");
     ("H4", "heading"); ("H5", "heading"); ("H6", "heading");
     ("UL", "list"); ("OL", "list"); ("LI", "listitem");
     ("TABLE", "table"); ("TR", "row"); ("TH", "columnheader"); ("TD", "cell")].

(** The double quote character, for the selectors the script writes. *)
Definition dq : string := String (ascii_of_nat 34) EmptyString.

(** *** DOM calls *)

Definition syntaxError (sel : string) : Exn :=
  DOMException ("'" +:+ sel +:+ "' is not a valid selector").

Definition querySelectorAll (root : ParentNode) (sel : string) (d : Node)
  : Completion (list Element) :=
  match cssMatches sel with
  | Some matches => Normal (List.filter (matches d) (scope root d))
  | None => Throw (syntaxError sel)
  end.

Definition querySelector (root : ParentNode) (sel : string) (d : Node)
  : Completion (option Element) :=
  match querySelectorAll root sel d with
  | Normal els => Normal (List.hd_error els)
  | Throw e => Throw e
  end.

Definition evaluateXPath (expr : string) (d : Node) : Completion (option Element) :=
  match xpathFirst expr d with
  | Some r => Normal r
  | None => Throw (DOMException ("The string '" +:+ expr +:+ "' is not a valid XPath expression"))
  end.

Definition getElementById (id : string) (d : Node) : option Element :=
  List.find (fun el => bool_decide (getAttribute el "id" = Some id)) (elements d).

Definition setAttribute (el : Element) (name v : string) : M unit :=
  modify (fun p => withDocument
    (updateProps (eid (props el)) (withAttributes (insert name v)) (documentElement p)) p).

Definition removeAttribute (el : Element) (name : string) : M unit :=
  modify (fun p => withDocument
    (updateProps (eid (props el)) (withAttributes (delete name)) (documentElement p)) p).

Definition dispatchEvent (el : Element) (ty : string) (key : option string) : M unit :=
  modify (fun p => withEvents
    (events p ++ [{| ev_target := eid (props el); ev_type := ty; ev_key := key |}]) p).

Definition focus (el : Element) : M unit :=
  modify (withActiveElement (Some (eid (props el)))).

Definition scrollIntoView (el : Element) : M unit :=
  modify (fun p => withScroll (scrollIntoViewOffsets el (scroll p)) p).

(** [await sleep(randomDelay(..))]: time passes, the page is as it was. *)
Definition sleep : M unit := ret tt.

(** *** Stealth helpers *)

Definition humanMouseMove (targetEl : Element) : M unit :=
  dispatchEvent targetEl "mousemove" None ;;
  sleep ;;
  dispatchEvent targetEl "mouseenter" None.

(** *** Set-of-Mark labelling *)

Definition markStyleText : string :=
  "[" +:+ MARK_ATTR +:+ "]::before { content: attr(" +:+ MARK_ATTR +:+ "); position: absolute; top: -8px; left: -2px; z-index: 2147483647; background: #1a73e8; color: #fff; font: bold 10px/14px monospace; padding: 1px 4px; border-radius: 3px; pointer-events: none; white-space: nowrap; } [" +:+ MARK_ATTR +:+ "] { position: relative; outline: 2px solid #1a73e8 !important; outline-offset: 1px; }".

(** An identity no element of the tree has. *)
Definition freshId (d : Node) : nat :=
  S (list_max (List.map (fun el => eid (props el)) (elements d))).

(** [document.createElement('style')] with its [id] and [textContent] set. *)
Definition newStyleElement (d : Node) : Node :=
  Elem {| eid := freshId d; tagName := "STYLE";
          attributes := {[ "id" := MARK_STYLE_ID ]};
          rect := {| x := 0; y := 0; width := 0; height := 0 |};
          style := {| visibility := "visible"; display := "none"; opacity := "1" |};
          value := None; type := Some EmptyString; checked := false;
          labels := None; options := None; href := None;
          isContentEditable := false |}
       [Text markStyleText].

Definition ensureMarkStyles : M unit :=
  fun p =>
    let d := documentElement p in
    match getElementById MARK_STYLE_ID d with
    | Some _ => (Normal tt, p)
    | None =>
        match head p, rootElement p with
        | Some parent, _ | None, Some parent =>
            (Normal tt, withDocument (appendChild (eid (props parent)) (newStyleElement d) d) p)
        | None, None =>
            (Throw (TypeError "Cannot read properties of null (reading 'appendChild')"), p)
        end
    end.

Definition interactiveSelector : string :=
  String.concat ","
    (INTERACTIVE_TAGS ++
     ["[role=" +:+ dq +:+ "button" +:+ dq +:+ "]";
      "[role=" +:+ dq +:+ "link" +:+ dq +:+ "]";
      "[role=" +:+ dq +:+ "checkbox" +:+ dq +:+ "]";
      "[role=" +:+ dq +:+ "radio" +:+ dq +:+ "]";
      "[role=" +:+ dq +:+ "tab" +:+ dq +:+ "]";
      "[role=" +:+ dq +:+ "menuitem" +:+ dq +:+ "]";
      "[contenteditable=" +:+ dq +:+ "true" +:+ dq +:+ "]";
      "[tabindex]"]).

Definition isVisible (el : Element) : bool :=
  let rect := rect (props el) in
  if (width rect =? 0) || (height rect =? 0) then false
  else
    let style := style (props el) in
    negb (String.eqb (visibility style) "hidden")
    && negb (String.eqb (display style) "none")
    && negb (String.eqb (opacity style) "0").

Definition getInteractiveElements (root : ParentNode) (d : Node)
  : Completion (list Element) :=
  match querySelectorAll root interactiveSelector d with
  | Normal els => Normal (List.filter isVisible els)
  | Throw e => Throw e
  end.

Definition clearSetOfMarks (root : ParentNode) : M unit :=
  do els <- liftRead (querySelectorAll root ("[" +:+ MARK_ATTR +:+ "]")) ;
  forEach (fun el => removeAttribute el MARK_ATTR) els.

(** [elements.forEach((el, idx) => ..)] of [applySetOfMarks], from index
    [idx] on; [markMap] is the [Map] being filled. *)
Fixpoint markEach (els : list Element) (idx : nat) (markMap : gmap string Element)
  : M (gmap string Element) :=
  match els with
  | [] => ret markMap
  | el :: rest =>
      let mark := NumberToString (Z.of_nat idx + 1) in
      setAttribute el MARK_ATTR mark ;;
      markEach rest (S idx) (<[mark := el]> markMap)
  end.

Definition applySetOfMarks (root : ParentNode) : M (gmap string Element) :=
  clearSetOfMarks root ;;
  ensureMarkStyles ;;
  do elements <- liftRead (getInteractiveElements root) ;
  markEach elements 0 ∅.

(** *** DOM analysis *)

(** [s.trim().split(/\s+/)] *)
Fixpoint splitWhiteSpace (s : string) (word : string) : list string :=
  match s with
  | EmptyString => [word]
  | String c s' =>
      if isWhiteSpace c
      then match s' with
           | String c' _ => if isWhiteSpace c' then splitWhiteSpace s' word
                            else word :: splitWhiteSpace s' EmptyString
           | EmptyString => [word]
           end
      else splitWhiteSpace s' (word +:+ String c EmptyString)
  end.

Record Descriptor := {
  d_tag : string;
  d_id : option string;
  d_classes : list string;
  d_role : option string;
  d_label : option string;
  d_mark : option string;
  d_value : option string;
  d_checked : option bool;
  d_href : option string;
  d_visible : bool;
  d_rect : Rect;
}.

Definition isCheckable (el : Element) : bool :=
  bool_decide (type (props el) = Some "checkbox")
  || bool_decide (type (props el) = Some "radio").

(** [el.labels && el.labels[0]?.textContent?.trim()] *)
Definition firstLabelText (el : Element) : option string :=
  match labels (props el) with
  | Some (t :: _) => Some (trim t)
  | _ => None
  end.

(** [el.textContent?.trim().slice(0, 80)] *)
Definition ownText (el : Element) : option string :=
  Some (slice0 80 (trim (textContent (nodeOf el)))).

Definition describeElement (el : Element) : Descriptor :=
  let rect := rect (props el) in
  let tag := tagName (props el) in
  let role := orElse (getAttribute el "role") (orElse (SEMANTIC_ROLES !! tag) None) in
  let label :=
    orElse (getAttribute el "aria-label")
   (orElse (getAttribute el "aria-labelledby")
   (orElse (getAttribute el "title")
   (orElse (getAttribute el "placeholder")
   (orElse (firstLabelText el)
   (orElse (ownText el)
    None))))) in
  {| d_tag := tag;
     d_id := orElse (getAttribute el "id") None;
     d_classes := match orElse (getAttribute el "class") None with
                  | Some className => splitWhiteSpace (trim className) EmptyString
                  | None => []
                  end;
     d_role := role;
     d_label := label;
     d_mark := orElse (getAttribute el MARK_ATTR) None;
     d_value := value (props el);
     d_checked := if isCheckable el then Some (checked (props el)) else None;
     d_href := href (props el);
     d_visible := isVisible el;
     d_rect := rect |}.

(** The [options] object of a command; a key that is not there is [None]
    or [VUndef]. *)
Record Options := {
  maxElements : option Z;
  includeHidden : Value;
  rightClick : Value;
  clearFirst : Value;
  humanDelay : Value;
  opt_x : option Z;
  opt_y : option Z;
  opt_selector : Value;
}.

(** [{}], the default of every [options] parameter. *)
Definition noOptions : Options :=
  {| maxElements := None; includeHidden := VUndef; rightClick := VUndef;
     clearFirst := VUndef; humanDelay := VUndef;
     opt_x := None; opt_y := None; opt_selector := VUndef |}.

Record Snapshot := {
  s_url : string;
  s_title : string;
  elementCount : nat;
  captured : nat;
  s_elements : list Descriptor;
}.

Definition getDomSnapshot (options : Options) (p : Page) : Snapshot :=
  let maxElements := default 500 (maxElements options) in
  let includeHidden := truthy (includeHidden options) in
  let elements := elements (documentElement p) in
  let relevant :=
    List.map describeElement
      (sliceList maxElements
         (List.filter (fun el => includeHidden || isVisible el) elements)) in
  {| s_url := url p; s_title := title p;
     elementCount := length elements;
     captured := length relevant;
     s_elements := relevant |}.

(** *** Accessibility tree *)

#[warnings="-register-all"]
Inductive A11yNode :=
| A11y (role : string) (name : option string) (tag : string)
       (mark : option string) (children : list A11yNode).

Definition a11yChildren (n : A11yNode) : list A11yNode :=
  match n with A11y _ _ _ _ children => children end.

(** [name] of [buildA11yNode] *)
Definition a11yName (el : Element) : option string :=
  orElse (getAttribute el "aria-label")
 (orElse (getAttribute el "title")
 (orElse (getAttribute el "placeholder")
 (orElse (ownText el)
  None))).

Definition a11yRole (el : Element) : string :=
  let tag := tagName (props el) in
  default (toLowerCase tag)
    (orElse (getAttribute el "role") (orElse (SEMANTIC_ROLES !! tag) None)).

(** [buildA11yNode(el, depth, maxDepth)].  The loop over [el.children] is
    the [omap] over the child nodes: a text node is no element child, and
    an absent child node is not pushed. *)
Fixpoint buildA11yNode (n : Node) (depth maxDepth : Z) : option A11yNode :=
  match n with
  | Text _ => None
  | Elem e kids =>
      let el : Element := (e, kids) in
      if depth >? maxDepth then None else
      let tag := tagName e in
      let role := a11yRole el in
      let name := a11yName el in
      if bool_decide (getAttribute el "aria-hidden" = Some "true") then None else
      if negb (isVisible el) && (depth >? 0) then None else
      let children := omap (fun child => buildA11yNode child (depth + 1) maxDepth) kids in
      if bool_decide (name = None) && (length children =? 0)%nat
         && negb (bool_decide (tag ∈ INTERACTIVE_TAGS))
      then None
      else Some (A11y role name tag (orElse (getAttribute el MARK_ATTR) None) children)
  end.

Record A11yTree := { t_url : string; t_title : string; tree : option A11yNode }.

(** [getAccessibilityTree(maxDepth = 8)]; with neither a body nor a root
    element, [buildA11yNode(null, ..)] reads [null.tagName]. *)
Definition getAccessibilityTree (maxDepth : option Z) (p : Page) : Completion A11yTree :=
  let maxDepth := default 8 maxDepth in
  match body p, rootElement p with
  | Some el, _ | None, Some el =>
      Normal {| t_url := url p; t_title := title p;
                tree := buildA11yNode (nodeOf el) 0 maxDepth |}
  | None, None =>
      if 0 >? maxDepth
      then Normal {| t_url := url p; t_title := title p; tree := None |}
      else Throw (TypeError "Cannot read properties of null (reading 'tagName')")
  end.

(** *** Element interaction *)

(** A target descriptor; [VUndef] is a key that is not there. *)
Record Target := { mark : Value; selector : Value; xpath : Value }.

Definition markSelector (m : Value) : string :=
  "[" +:+ MARK_ATTR +:+ "=" +:+ dq +:+ ToString m +:+ dq +:+ "]".

(** [resolveTarget(target)]; [None] is a target that is undefined or null. *)
Definition resolveTarget (target : option Target) (d : Node) : Completion Element :=
  match target with
  | None => Throw (Error "target is required")
  | Some target =>
      if isStringOrNumber (mark target) then
        match querySelector DocumentNode (markSelector (mark target)) d with
        | Throw e => Throw e
        | Normal None => Throw (Error ("No element with mark " +:+ ToString (mark target)))
        | Normal (Some el) => Normal el
        end
      else if truthy (selector target) then
        match querySelector DocumentNode (ToString (selector target)) d with
        | Throw e => Throw e
        | Normal None =>
            Throw (Error ("No element matching " +:+ dq +:+ ToString (selector target) +:+ dq))
        | Normal (Some el) => Normal el
        end
      else if truthy (xpath target) then
        match evaluateXPath (ToString (xpath target)) d with
        | Throw e => Throw e
        | Normal None =>
            Throw (Error ("No element at XPath " +:+ dq +:+ ToString (xpath target) +:+ dq))
        | Normal (Some el) => Normal el
        end
      else Throw (Error "target must have mark, selector, or xpath")
  end.

Definition clickElement (target : option Target) (options : Options) : M Descriptor :=
  do el <- liftRead (resolveTarget target) ;
  scrollIntoView el ;;
  sleep ;;
  humanMouseMove el ;;
  dispatchEvent el "mousedown" None ;;
  sleep ;;
  dispatchEvent el "mouseup" None ;;
  dispatchEvent el "click" None ;;
  modify (clickActivation (eid (props el))) ;;
  (if truthy (rightClick options) then dispatchEvent el "contextmenu" None else ret tt) ;;
  fun p => (Normal (describeElement (live p el)), p).

(** [el.value = v] and [el.value += char] *)
Definition setValue (el : Element) (v : string) : M unit :=
  modify (fun p => withDocument
    (updateProps (eid (props el)) (withValue (Some v)) (documentElement p)) p).

Definition appendValue (el : Element) (char : string) : M unit :=
  modify (fun p => withDocument
    (updateProps (eid (props el))
       (fun e => withValue (Some (default "undefined" (value e) +:+ char)) e)
       (documentElement p)) p).

Definition appendTextContent (el : Element) (char : string) : M unit :=
  fun p =>
    let now := live p el in
    (Normal tt,
     withDocument (setTextContent (eid (props el)) (textContent (nodeOf now) +:+ char)
                     (documentElement p)) p).

(** One turn of the loop [for (const char of text)] of [typeInElement]. *)
Definition typeChar (el : Element) (delay : bool) (c : ascii) : M unit :=
  let char := String c EmptyString in
  dispatchEvent el "keydown" (Some char) ;;
  dispatchEvent el "keypress" (Some char) ;;
  (if String.eqb (tagName (props el)) "INPUT" || String.eqb (tagName (props el)) "TEXTAREA"
   then appendValue el char
   else fun p =>
     if isContentEditable (props (live p el))
     then if (0 <? selectionRangeCount p)%nat
          then (Normal tt, insertAtSelection char p)
          else appendTextContent el char p
     else (Normal tt, p)) ;;
  dispatchEvent el "keyup" (Some char) ;;
  dispatchEvent el "input" None ;;
  (if delay then sleep else ret tt).

Definition typeInElement (target : option Target) (text : Value) (options : Options)
  : M Descriptor :=
  do el <- liftRead (resolveTarget target) ;
  scrollIntoView el ;;
  sleep ;;
  focus el ;;
  sleep ;;
  (if truthy (clearFirst options)
   then setValue el EmptyString ;; dispatchEvent el "input" None
   else ret tt) ;;
  let delay := negb (strictEqBool (humanDelay options) false) in
  match text with
  | VStr text =>
      forEach (typeChar el delay) (list_ascii_of_string text) ;;
      dispatchEvent el "change" None ;;
      fun p => (Normal (describeElement (live p el)), p)
  | _ => throw (TypeError "text is not iterable")
  end.

Definition scrollPage (options : Options) : M (Z * Z) :=
  let x := default 0 (opt_x options) in
  let y := default 0 (opt_y options) in
  let selector := opt_selector options in
  (if truthy selector then
     do el <- liftRead (querySelector DocumentNode (ToString selector)) ;
     match el with
     | Some el => scrollIntoView el
     | None => ret tt
     end
   else modify (fun p => withScroll (scrollByOffsets x y (scroll p)) p)) ;;
  sleep ;;
  fun p => (Normal (scroll p), p).

(** *** Form automation *)

Record Field := { f_target : option Target; f_value : Value; f_type : Value }.

Record FieldResult := { r_target : option Target; r_ok : bool; r_error : option string }.

(** [o => o.value === value || o.text === value] *)
Definition optionMatches (v : Value) (o : OptionEl) : bool :=
  strictEqStr v (o_value o) || strictEqStr v (o_text o).

(** [option.selected = true] for the first option that matches: in a
    select without the [multiple] attribute the other options are
    deselected. *)
Fixpoint selectFirst (v : Value) (multiple : bool) (opts : list OptionEl) : list OptionEl :=
  match opts with
  | [] => []
  | o :: rest =>
      if optionMatches v o
      then {| o_value := o_value o; o_text := o_text o; o_selected := true |}
           :: (if multiple then rest
               else List.map (fun o' => {| o_value := o_value o'; o_text := o_text o';
                                           o_selected := false |}) rest)
      else (if multiple then o
            else {| o_value := o_value o; o_text := o_text o; o_selected := false |})
           :: selectFirst v multiple rest
  end.

Definition selectOption (el : Element) (v : Value) : M unit :=
  modify (fun p => withDocument
    (updateProps (eid (props el))
       (fun e => withOptions
          (selectFirst v (bool_decide (is_Some (attributes e !! "multiple"))) <$> options e) e)
       (documentElement p)) p).

(** The body of the [try] block for one field. *)
Definition fillField (f : Field) : M unit :=
  let target := f_target f in
  let value := f_value f in
  do el <- liftRead (resolveTarget target) ;
  if strictEqStr (f_type f) "select" then
    focus el ;;
    match options (props el) with
    | None => throw (TypeError "undefined is not iterable")
    | Some opts =>
        match List.find (optionMatches value) opts with
        | Some _ =>
            selectOption el value ;;
            dispatchEvent el "change" None
        | None => ret tt
        end
    end
  else if isCheckable el then
    let shouldCheck :=
      strictEqBool value true || strictEqStr value "true" || strictEqStr value "1" in
    if negb (Bool.eqb (checked (props el)) shouldCheck)
    then clickElement target noOptions ;; ret tt
    else ret tt
  else
    typeInElement target (VStr (ToString value))
      {| maxElements := None; includeHidden := VUndef; rightClick := VUndef;
         clearFirst := VBool true; humanDelay := VUndef;
         opt_x := None; opt_y := None; opt_selector := VUndef |} ;;
    ret tt.

Fixpoint fillFormFrom (fields : list Field) (results : list FieldResult)
  : M (list FieldResult) :=
  match fields with
  | [] => ret results
  | f :: rest =>
      do entry <- tryCatch
        (fillField f ;;
         ret {| r_target := f_target f; r_ok := true; r_error := None |})
        (fun err =>
           ret {| r_target := f_target f; r_ok := false; r_error := Some (message err) |}) ;
      fillFormFrom rest (results ++ [entry])
  end.

Definition fillForm (fields : list Field) : M (list FieldResult) :=
  fillFormFrom fields [].

(** *** waitForSelector *)

(** The promise, the mutation observer and the timer of one call. *)
Inductive PromiseState :=
| Pending
| Fulfilled (found : bool)
| Rejected (e : Exn).

Inductive ObserverState := NoObserver | Observing | Disconnected.
Inductive TimerState := NoTimer | Armed | Fired.

Record WaitState := {
  promise : PromiseState;
  observer : ObserverState;
  timer : TimerState;
  (** every call of [resolve], the latest last *)
  resolveCalls : list bool;
}.

(** [resolve(v)]: only the first call settles the promise. *)
Definition resolve (v : bool) (st : WaitState) : WaitState :=
  {| promise := match promise st with Pending => Fulfilled v | settled => settled end;
     observer := observer st; timer := timer st;
     resolveCalls := resolveCalls st ++ [v] |}.

Definition disconnect (st : WaitState) : WaitState :=
  {| promise := promise st;
     observer := match observer st with NoObserver => NoObserver | _ => Disconnected end;
     timer := timer st; resolveCalls := resolveCalls st |}.

(** The executor of [new Promise(resolve => ..)], run on the document [d]. *)
Definition waitStart (selector : string) (d : Node) : WaitState :=
  let st0 := {| promise := Pending; observer := NoObserver; timer := NoTimer;
                resolveCalls := [] |} in
  match querySelector DocumentNode selector d with
  | Throw e =>
      {| promise := Rejected e; observer := NoObserver; timer := NoTimer;
         resolveCalls := [] |}
  | Normal (Some _) => resolve true st0
  | Normal None =>
      {| promise := Pending; observer := Observing; timer := Armed; resolveCalls := [] |}
  end.

(** What the event loop can deliver afterwards: a batch of child-list
    mutations, with the document as it then is, or the expiry of the timer. *)
Inductive WaitEvent :=
| Mutated (d : Node)
| TimerExpired.

Definition waitStep (selector : string) (st : WaitState) (ev : WaitEvent) : WaitState :=
  match ev with
  | Mutated d =>
      match observer st with
      | Observing =>
          match querySelector DocumentNode selector d with
          | Normal (Some _) => resolve true (disconnect st)
          | _ => st
          end
      | _ => st
      end
  | TimerExpired =>
      match timer st with
      | Armed =>
          let st' := resolve false (disconnect st) in
          {| promise := promise st'; observer := observer st'; timer := Fired;
             resolveCalls := resolveCalls st' |}
      | _ => st
      end
  end.

Definition waitRun (selector : string) (d : Node) (evs : list WaitEvent) : WaitState :=
  fold_left (waitStep selector) evs (waitStart selector d).

(** [await waitForSelector(selector, timeout)]: [mutations] are the
    documents that the observer is shown, in order, before the timer set
    for [timeout] milliseconds expires.  Waiting writes nothing to the page.
    (After [TimerExpired] the promise is never [Pending], see
    [waitRun_timer_settles].) *)
Definition waitForSelector (selector : string) (timeout : option Z)
  (mutations : list Node) : M bool :=
  fun p =>
    let st := waitRun selector (documentElement p)
                (List.map Mutated mutations ++ [TimerExpired]) in
    match promise st with
    | Fulfilled found => (Normal found, p)
    | Rejected e => (Throw e, p)
    | Pending => (Normal false, p)
    end.

(** *** Message handler *)

(** An incoming message: its [type] and the parameters the handlers read. *)
Record Message := {
  m_type : string;
  m_options : option Options;
  m_maxDepth : option Z;
  m_target : option Target;
  m_text : Value;
  m_fields : option (list Field);
  m_selector : Value;
  m_limit : option Z;
  m_timeout : option Z;
}.

Record PageInfo := {
  i_url : string; i_title : string; i_readyState : string;
  i_viewport : Z * Z; i_scroll : Z * Z;
}.

(** The fields of a response besides [ok] and [error]. *)
Inductive Payload :=
| NoPayload
| PingOf (url title : string)
| SnapshotOf (snapshot : Snapshot)
| TreeOf (tree : A11yTree)
| MarksOf (count : nat) (marks : gmap string Descriptor)
| ElementOf (element : Descriptor)
| PositionOf (position : Z * Z)
| ResultsOf (results : list FieldResult)
| PageInfoOf (info : PageInfo)
| ElementsOf (elements : list Descriptor)
| TimedOutOf (timedOut : bool).

(** A response object; [error = None] is a response without [error] key. *)
Record Response := { ok : bool; error : option string; payload : Payload }.

Definition success (pl : Payload) : Response :=
  {| ok := true; error := None; payload := pl |}.

Definition liftCompletion {A} (c : Completion A) : M A := fun p => (c, p).

(** [handle()], the [switch] over [message.type]; [mutations] is what the
    page does while [WAIT_FOR_SELECTOR] waits. *)
Definition handle (message : Message) (mutations : list Node) : M Response :=
  let ty := m_type message in
  let options := default noOptions (m_options message) in
  if String.eqb ty "PING" then
    fun p => (Normal (success (PingOf (url p) (title p))), p)
  else if String.eqb ty "GET_DOM_SNAPSHOT" then
    fun p => (Normal (success (SnapshotOf (getDomSnapshot options p))), p)
  else if String.eqb ty "GET_ACCESSIBILITY_TREE" then
    do t <- (fun p => (getAccessibilityTree (m_maxDepth message) p, p)) ;
    ret (success (TreeOf t))
  else if String.eqb ty "APPLY_SET_OF_MARKS" then
    do markMap <- applySetOfMarks DocumentNode ;
    fun p => (Normal (success (MarksOf (size markMap)
                                 ((fun el => describeElement (live p el)) <$> markMap))), p)
  else if String.eqb ty "CLEAR_SET_OF_MARKS" then
    clearSetOfMarks DocumentNode ;;
    ret (success NoPayload)
  else if String.eqb ty "CLICK_ELEMENT" then
    do element <- clickElement (m_target message) options ;
    ret (success (ElementOf element))
  else if String.eqb ty "TYPE_IN_ELEMENT" then
    do element <- typeInElement (m_target message) (m_text message) options ;
    ret (success (ElementOf element))
  else if String.eqb ty "SCROLL" then
    do position <- scrollPage options ;
    ret (success (PositionOf position))
  else if String.eqb ty "FILL_FORM" then
    match m_fields message with
    | Some fields =>
        do results <- fillForm fields ;
        ret (success (ResultsOf results))
    | None => throw (TypeError "fields is not iterable")
    end
  else if String.eqb ty "GET_PAGE_INFO" then
    fun p => (Normal (success (PageInfoOf
      {| i_url := url p; i_title := title p; i_readyState := readyState p;
         i_viewport := viewport p; i_scroll := scroll p |})), p)
  else if String.eqb ty "FIND_ELEMENTS" then
    do els <- liftRead (if truthy (m_selector message)
                        then querySelectorAll DocumentNode (ToString (m_selector message))
                        else getInteractiveElements DocumentNode) ;
    ret (success (ElementsOf
           (List.map describeElement (sliceList (default 100 (m_limit message)) els))))
  else if String.eqb ty "WAIT_FOR_SELECTOR" then
    do found <- waitForSelector (ToString (m_selector message)) (m_timeout message) mutations ;
    ret {| ok := found; error := None; payload := TimedOutOf (negb found) |}
  else
    ret {| ok := false; error := Some ("Unknown message type: " +:+ ty);
           payload := NoPayload |}.

(** The listener: [handle().then(sendResponse).catch(err => sendResponse({
    ok: false, error: err.message }))].  The result is the response sent. *)
Definition onMessage (message : Message) (mutations : list Node) (p : Page)
  : Response * Page :=
  match handle message mutations p with
  | (Normal response, p') => (response, p')
  | (Throw err, p') =>
      ({| ok := false; error := Some (Js.message err); payload := NoPayload |}, p')
  end.

End ContentScript.

(* ------------------------------------------------------------------------- *)
(** ** What the labeller assumes of the selector engine *)

(** The meaning of [interactiveSelector]: a tag of the interactive set, one
    of six roles, [contenteditable="true"], or a [tabindex] attribute. *)
Definition qualifies (el : Element) : bool :=
  bool_decide (tagName (props el) ∈ INTERACTIVE_TAGS)
  || bool_decide (getAttribute el "role" ∈
       [Some "button"; Some "link"; Some "checkbox"; Some "radio"; Some "tab";
        Some "menuitem"])
  || bool_decide (getAttribute el "contenteditable" = Some "true")
  || bool_decide (is_Some (getAttribute el "tabindex")).

(** A string that a quoted CSS attribute value denotes literally: no quote,
    no backslash, no line break, no NUL. *)
Definition cssPlainChar (c : ascii) : bool :=
  negb (bool_decide (nat_of_ascii c ∈ [0; 10; 12; 13; 34; 92]%nat)).

Fixpoint cssPlain (v : string) : bool :=
  match v with
  | EmptyString => true
  | String c v' => cssPlainChar c && cssPlain v'
  end.

Definition hasMark (el : Element) : bool :=
  bool_decide (is_Some (getAttribute el MARK_ATTR)).

Definition hasMarkValue (v : string) (el : Element) : bool :=
  bool_decide (getAttribute el MARK_ATTR = Some v).

(** The three selectors the script writes itself mean what CSS says. *)
Record BrowserLaws (B : Browser) : Prop := {
  css_has_mark :
    ∃ f, cssMatches ("[" +:+ MARK_ATTR +:+ "]") = Some f ∧ ∀ d el, f d el = hasMark el;
  css_mark_value : ∀ v, cssPlain v = true →
    ∃ f, cssMatches ("[" +:+ MARK_ATTR +:+ "=" +:+ dq +:+ v +:+ dq +:+ "]") = Some f
         ∧ ∀ d el, f d el = hasMarkValue v el;
  css_interactive :
    ∃ f, cssMatches interactiveSelector = Some f ∧ ∀ d el, f d el = qualifies el;
}.

(** The visible qualifying elements of a document, in document order. *)
Definition visibleQualifying (d : Node) : list Element :=
  List.filter isVisible (List.filter qualifies (elements d)).

Definition eidOf (el : Element) : nat := eid (props el).

(** Every element of the document has an identity of its own. *)
Definition uniqueIds (d : Node) : Prop := NoDup (List.map eidOf (elements d)).

(* ------------------------------------------------------------------------- *)
(** ** A small browser, for concrete runs *)

Module Mini.

Fixpoint stripPrefix (pre s : string) : option string :=
  match pre, s with
  | EmptyString, _ => Some s
  | String a pre', String b s' => if Ascii.eqb a b then stripPrefix pre' s' else None
  | String _ _, EmptyString => None
  end.

(** The text before the first double quote, and the text after it. *)
Fixpoint untilQuote (s : string) : option (string * string) :=
  match s with
  | EmptyString => None
  | String c s' =>
      if Ascii.eqb c (ascii_of_nat 34) then Some (EmptyString, s')
      else match untilQuote s' with
           | Some (v, rest) => Some (String c v, rest)
           | None => None
           end
  end.

Definition isLetter (c : ascii) : bool :=
  let n := nat_of_ascii c in
  ((65 <=? n) && (n <=? 90) || (97 <=? n) && (n <=? 122))%nat.

Fixpoint allLetters (s : string) : bool :=
  match s with
  | EmptyString => true
  | String c s' => isLetter c && allLetters s'
  end.

Definition upperChar (c : ascii) : ascii :=
  let n := nat_of_ascii c in
  if ((97 <=? n) && (n <=? 122))%nat then ascii_of_nat (n - 32) else c.

Fixpoint toUpperCase (s : string) : string :=
  match s with
  | EmptyString => EmptyString
  | String c s' => String (upperChar c) (toUpperCase s')
  end.

(** It understands [[data-openclaw-mark="v"]], [[data-openclaw-mark]],
    the selector of the interactive elements, and a lone tag name. *)
Definition css (s : string) : option (Node → Element → bool) :=
  match stripPrefix ("[" +:+ MARK_ATTR +:+ "=" +:+ dq) s with
  | Some rest =>
      match untilQuote rest with
      | Some (v, close) =>
          if String.eqb close "]" && cssPlain v then Some (fun _ => hasMarkValue v)
          else None
      | None => None
      end
  | None =>
      if String.eqb s ("[" +:+ MARK_ATTR +:+ "]") then Some (fun _ => hasMark)
      else if String.eqb s interactiveSelector then Some (fun _ => qualifies)
      else if allLetters s && negb (String.eqb s "")
      then Some (fun _ el => String.eqb (tagName (props el)) (toUpperCase s))
      else None
  end.

(** It understands [/*], the root element; any other expression that
    starts with a slash selects nothing. *)
Definition xpath (expr : string) (d : Node) : option (option Element) :=
  if String.eqb expr "/*" then Some (List.hd_error (elements d))
  else match expr with
       | String "/" _ => Some None
       | _ => None
       end.

(** A click toggles a checkbox and checks a radio button. *)
Definition activation (id : nat) (p : Page) : Page :=
  withDocument
    (updateProps id
       (fun e => if bool_decide (type e = Some "checkbox") then withChecked (negb (checked e)) e
                 else if bool_decide (type e = Some "radio") then withChecked true e
                 else e)
       (documentElement p)) p.

Definition browser : Browser :=
  {| cssMatches := css;
     xpathFirst := xpath;
     clickActivation := activation;
     scrollIntoViewOffsets := fun _ s => s;
     scrollByOffsets := fun dx dy s => (fst s + dx, snd s + dy);
     insertAtSelection := fun _ p => p |}.

End Mini.

(* ------------------------------------------------------------------------- *)
(** ** Example pages *)

Module Examples.

Definition box : Rect := {| x := 0; y := 0; width := 100; height := 20 |}.
Definition shown : Style := {| visibility := "visible"; display := "block"; opacity := "1" |}.

(** A rendered element without form state. *)
Definition el (id : nat) (tag : string) (attrs : list (string * string)) : Props :=
  {| eid := id; tagName := tag; attributes := list_to_map attrs;
     rect := box; style := shown; value := None; type := None; checked := false;
     labels := None; options := None; href := None; isContentEditable := false |}.

Definition input (id : nat) (ty v : string) (attrs : list (string * string)) : Props :=
  {| eid := id; tagName := "INPUT"; attributes := list_to_map attrs;
     rect := box; style := shown; value := Some v; type := Some ty; checked := false;
     labels := Some []; options := None; href := None; isContentEditable := false |}.

Definition select (id : nat) (opts : list OptionEl) : Props :=
  {| eid := id; tagName := "SELECT"; attributes := ∅;
     rect := box; style := shown; value := None; type := Some "select-one";
     checked := false; labels := Some []; options := Some opts; href := None;
     isContentEditable := false |}.

Definition page (d : Node) : Page :=
  {| documentElement := d; url := "https://example.test/"; title := "Example";
     readyState := "complete"; viewport := (800, 600); scroll := (0, 0);
     activeElement := None; selectionRangeCount := 0%nat; events := [] |}.

(** [<html><head></head><body></body></html>] *)
Definition emptyBody : Page :=
  page (Elem (el 1 "HTML" [])
          [Elem (el 2 "HEAD" []) []; Elem (el 3 "BODY" []) []]).

(** A body with a stale mark on a paragraph, a link, a hidden button and
    an input. *)
Definition formPage : Page :=
  page (Elem (el 1 "HTML" [])
          [Elem (el 2 "HEAD" []) [];
           Elem (el 3 "BODY" [])
             [Elem (el 4 "P" [(MARK_ATTR, "7")]) [Text "Sign in"];
              Elem (el 5 "A" [("href", "/help")]) [Text "Help"];
              Elem {| eid := 6; tagName := "BUTTON"; attributes := ∅;
                      rect := {| x := 0; y := 0; width := 0; height := 0 |};
                      style := shown; value := Some EmptyString; type := Some "submit";
                      checked := false; labels := Some []; options := None;
                      href := None; isContentEditable := false |} [Text "Hidden"];
              Elem (input 7 "text" "old" [("name", "user")]) [];
              Elem (select 8 [ {| o_value := "de"; o_text := "German"; o_selected := true |};
                               {| o_value := "fr"; o_text := "French"; o_selected := false |} ])
                   []]]).

(** An input named by reference, with an associated label. *)
Definition labelledInput : Element :=
  ({| eid := 9; tagName := "INPUT";
      attributes := {[ "aria-labelledby" := "name-label" ]};
      rect := box; style := shown; value := Some EmptyString; type := Some "text";
      checked := false; labels := Some ["Name"]; options := None; href := None;
      isContentEditable := false |}, []).

Definition byMark (m : string) : option Target :=
  Some {| mark := VStr m; selector := VUndef; xpath := VUndef |}.
Definition bySelector (s : string) : option Target :=
  Some {| mark := VUndef; selector := VStr s; xpath := VUndef |}.

Definition emptyMessage (ty : string) : Message :=
  {| m_type := ty; m_options := None; m_maxDepth := None; m_target := None;
     m_text := VUndef; m_fields := None; m_selector := VUndef;
     m_limit := None; m_timeout := None |}.

End Examples.

(* ------------------------------------------------------------------------- *)
(** ** Vocabulary of the properties *)

(** What an in-place write to the element [id] makes of a reference [el]
    read before the write. *)
Definition updateElement (id : nat) (f : Props → Props) (el : Element) : Element :=
  (if Nat.eqb (eid (props el)) id then f (props el) else props el,
   List.map (updateProps id f) (childNodes el)).

Definition ids (d : Node) : list nat := List.map eidOf (elements d).
Definition allProps (d : Node) : list Props := List.map props (elements d).

Definition unmark (e : Props) : Props := withAttributes (delete MARK_ATTR) e.
Definition setMark (m : string) (e : Props) : Props := withAttributes (insert MARK_ATTR m) e.

(** The mark string of the element at index [idx] of the labelling loop. *)
Definition markOf (idx : nat) : string := NumberToString (Z.of_nat idx + 1).

(** The document, one element and the registry after [removeAttribute] on
    each of [els], and after the labelling loop over [els] from [idx]. *)
Definition unmarkDoc (els : list Element) (d : Node) : Node :=
  fold_left (fun d el => updateProps (eidOf el) unmark d) els d.

Definition unmarkAll (els : list Element) (el : Element) : Element :=
  fold_left (fun el e => updateElement (eidOf e) unmark el) els el.

Fixpoint labelDoc (els : list Element) (idx : nat) (d : Node) : Node :=
  match els with
  | [] => d
  | e :: rest => labelDoc rest (S idx) (updateProps (eidOf e) (setMark (markOf idx)) d)
  end.

Fixpoint labelled (els : list Element) (idx : nat) (el : Element) : Element :=
  match els with
  | [] => el
  | e :: rest => labelled rest (S idx) (updateElement (eidOf e) (setMark (markOf idx)) el)
  end.

Fixpoint labelMap (els : list Element) (idx : nat) (m : gmap string Element)
  : gmap string Element :=
  match els with
  | [] => m
  | e :: rest => labelMap rest (S idx) (<[markOf idx := e]> m)
  end.

(** Properties of an element that no write to its mark attribute changes. *)
Definition sameButMark (e e' : Props) : Prop :=
  eid e' = eid e ∧ tagName e' = tagName e ∧ rect e' = rect e ∧ style e' = style e
  ∧ ∀ a, a ≠ MARK_ATTR → attributes e' !! a = attributes e !! a.

(** A value that [||] skips: null or the empty string. *)
Definition falsy (o : option string) : Prop := o = None ∨ o = Some EmptyString.

(** What [resolveTarget] makes of the lookup it chose. *)
Definition found (lookup : Completion (option Element)) (notFound : string)
  : Completion Element :=
  match lookup with
  | Normal (Some el) => Normal el
  | Normal None => Throw (Error notFound)
  | Throw e => Throw e
  end.

(** The two families of messages [resolveTarget] throws. *)
Definition isTargetNotFound (e : Exn) : Prop :=
  ∃ what, e = Error ("No element " +:+ what).

Definition isInvalidTarget (e : Exn) : Prop :=
  e = Error "target is required" ∨ e = Error "target must have mark, selector, or xpath".

(** The entry [fillForm] pushes for a field, from how its [try] block ended. *)
Definition entryOf (f : Field) (c : Completion unit) : FieldResult :=
  match c with
  | Normal _ => {| r_target := f_target f; r_ok := true; r_error := None |}
  | Throw err => {| r_target := f_target f; r_ok := false; r_error := Some (message err) |}
  end.



(** Whether an element is a visible qualifying one, read off its own
    properties. *)
Definition visibleQualifyingP (e : Props) : bool :=
  qualifies (e, []) && isVisible (e, []).

(** The message types the [switch] has a case for. *)
Definition knownTypes : list string :=
  ["PING"; "GET_DOM_SNAPSHOT"; "GET_ACCESSIBILITY_TREE"; "APPLY_SET_OF_MARKS";
   "CLEAR_SET_OF_MARKS"; "CLICK_ELEMENT"; "TYPE_IN_ELEMENT"; "SCROLL"; "FILL_FORM";
   "GET_PAGE_INFO"; "FIND_ELEMENTS"; "WAIT_FOR_SELECTOR"].

(** A promise that is no longer pending. *)
Definition settled (st : WaitState) : Prop := promise st ≠ Pending.



(* ------------------------------------------------------------------------- *)
(** ** The background service worker *)

(** The part of the background script (src/popup.js, lines 243-425) that
    decides by itself: the log threshold, [handleSetLogLevel],
    [handleNavigate] and [handleDownload].  The [chrome.*] calls are a
    parameter; the worker records each call it makes. *)
Module Background.

Definition LOG_LEVELS : gmap string Z :=
  list_to_map [("DEBUG", 0); ("INFO", 1); ("WARN", 2); ("ERROR", 3)].

(** [s.toUpperCase()].  Code units outside ASCII are left as they are; none
    of them becomes a letter of a level name. *)
Definition upperChar (c : ascii) : ascii :=
  let n := nat_of_ascii c in
  if ((97 <=? n) && (n <=? 122))%nat then ascii_of_nat (n - 32) else c.

Fixpoint toUpperCase (s : string) : string :=
  match s with
  | EmptyString => EmptyString
  | String c s' => String (upperChar c) (toUpperCase s')
  end.

Inductive ChromeCall :=
| TabsQueryActive
| TabsCreate (url : Value)
| TabsUpdate (tabId url : Value)
| DownloadsDownload (url filename conflictAction saveAs : Value).

(** One line on the console: the method used and the level in the prefix. *)
Record ConsoleLine := { c_method : string; c_level : string }.

Record Worker := {
  currentLogLevel : Z;
  console : list ConsoleLine;
  calls : list ChromeCall;
}.

(** What the [chrome.*] promises settle to. *)
Class Chrome := {
  (** [(await chrome.tabs.query({ active: true, currentWindow: true }))[0]?.id] *)
  activeTabId : Completion Value;
  (** [(await chrome.tabs.create({ url })).id] *)
  createdTabId : Value → Completion Value;
  (** [await chrome.tabs.update(id, { url })] *)
  tabsUpdate : Value → Value → Completion unit;
  (** [await chrome.downloads.download({ url, filename, conflictAction, saveAs })] *)
  downloadsDownload : Value → Value → Value → Value → Completion Value;
}.

Definition called (c : ChromeCall) (w : Worker) : Worker :=
  {| currentLogLevel := currentLogLevel w; console := console w; calls := calls w ++ [c] |}.

(** [log(level, ...args)]: [LOG_LEVELS[level] >= currentLogLevel] is false
    for a level the table does not have. *)
Definition log (level : string) (w : Worker) : Worker :=
  match LOG_LEVELS !! level with
  | Some n =>
      if n >=? currentLogLevel w then
        let method := if String.eqb level "ERROR" then "error"
                      else if String.eqb level "WARN" then "warn" else "log" in
        {| currentLogLevel := currentLogLevel w;
           console := console w ++ [{| c_method := method; c_level := level |}];
           calls := calls w |}
      else w
  | None => w
  end.

(** A response of the worker; an absent key is [None]. *)
Record Reply := {
  b_ok : bool;
  b_error : option string;
  b_tabId : option Value;
  b_downloadId : option Value;
}.

Definition failure (msg : string) : Reply :=
  {| b_ok := false; b_error := Some msg; b_tabId := None; b_downloadId := None |}.

(** [handleSetLogLevel(message, sendResponse)], [level] being
    [message.level]; calling [toUpperCase] on a value that has none throws. *)
Definition handleSetLogLevel (level : Value) (w : Worker) : Completion Reply * Worker :=
  let setTo (name : option string) :=
    match name ≫= (fun n => LOG_LEVELS !! n) with
    | Some lvl =>
        (Normal {| b_ok := true; b_error := None; b_tabId := None; b_downloadId := None |},
         {| currentLogLevel := lvl; console := console w; calls := calls w |})
    | None => (Normal (failure "Invalid log level"), w)
    end in
  match level with
  | VUndef | VNull => setTo None
  | VStr s => setTo (Some (toUpperCase s))
  | VNum _ | VBool _ =>
      (Throw (TypeError "message.level?.toUpperCase is not a function"), w)
  end.

(** The router's turn for a [SET_LOG_LEVEL] message: the debug line, then
    [try { handler() } catch (err) { log('ERROR', ..); sendResponse({ ok:
    false, error: err.message }) }]. *)
Definition routeSetLogLevel (level : Value) (w : Worker) : Reply * Worker :=
  match handleSetLogLevel level (log "DEBUG" w) with
  | (Normal r, w') => (r, w')
  | (Throw err, w') => (failure (message err), log "ERROR" w')
  end.

(** The fields of a [NAVIGATE] and of a [DOWNLOAD_FILE] message. *)
Record Navigate := { n_url : Value; n_tabId : Value; n_newTab : Value }.
Record Download := {
  dl_url : Value; dl_filename : Value; dl_conflictAction : Value; dl_saveAs : Value;
}.

Definition isNullish (v : Value) : bool :=
  match v with VUndef | VNull => true | _ => false end.

Section Handlers.
Context {C : Chrome}.

(** The [try] block of [handleNavigate]. *)
Definition navigate (m : Navigate) (w : Worker) : Completion Reply * Worker :=
  let url := n_url m in
  let tabId := n_tabId m in
  let newTab := match n_newTab m with VUndef => VBool false | v => v end in
  if negb (truthy url) then (Throw (Error "url is required"), w)
  else if truthy newTab then
    let w1 := called (TabsCreate url) w in
    match createdTabId url with
    | Normal id =>
        (Normal {| b_ok := true; b_error := None; b_tabId := Some id; b_downloadId := None |},
         w1)
    | Throw e => (Throw e, w1)
    end
  else
    let '(id, w1) :=
      if isNullish tabId then (activeTabId, called TabsQueryActive w)
      else (Normal tabId, w) in
    match id with
    | Throw e => (Throw e, w1)
    | Normal id =>
        if negb (truthy id) then (Throw (Error "No target tab"), w1)
        else
          let w2 := called (TabsUpdate id url) w1 in
          match tabsUpdate id url with
          | Normal _ =>
              (Normal {| b_ok := true; b_error := None; b_tabId := Some id;
                         b_downloadId := None |}, w2)
          | Throw e => (Throw e, w2)
          end
    end.

Definition handleNavigate (m : Navigate) (w : Worker) : Reply * Worker :=
  match navigate m w with
  | (Normal r, w') => (r, w')
  | (Throw err, w') => (failure (message err), log "ERROR" w')
  end.

(** The [try] block of [handleDownload]. *)
Definition download (m : Download) (w : Worker) : Completion Reply * Worker :=
  let url := dl_url m in
  let filename := dl_filename m in
  let conflictAction :=
    match dl_conflictAction m with VUndef => VStr "uniquify" | v => v end in
  if negb (truthy url) then (Throw (Error "url is required"), w)
  else
    let saveAs := if isNullish (dl_saveAs m) then VBool false else dl_saveAs m in
    let w1 := called (DownloadsDownload url filename conflictAction saveAs) w in
    match downloadsDownload url filename conflictAction saveAs with
    | Normal downloadId =>
        (Normal {| b_ok := true; b_error := None; b_tabId := None;
                   b_downloadId := Some downloadId |}, log "INFO" w1)
    | Throw e => (Throw e, w1)
    end.

Definition handleDownload (m : Download) (w : Worker) : Reply * Worker :=
  match download m w with
  | (Normal r, w') => (r, w')
  | (Throw err, w') => (failure (message err), log "ERROR" w')
  end.

End Handlers.

(** A browser with one active tab, number 7; a new tab gets number 8 and a
    download number 1. *)
Definition chrome : Chrome :=
  {| activeTabId := Normal (VNum 7);
     createdTabId := fun _ => Normal (VNum 8);
     tabsUpdate := fun _ _ => Normal tt;
     downloadsDownload := fun _ _ _ _ => Normal (VNum 1) |}.

(** The worker as it starts: threshold [INFO]. *)
Definition start : Worker :=
  {| currentLogLevel := 1; console := []; calls := [] |}.

(** The threshold is one of the four levels. *)
Definition levelOk (w : Worker) : Prop := 0 ≤ currentLogLevel w ≤ 3.

(** The worker after a series of [SET_LOG_LEVEL] messages. *)
Definition afterLevels (levels : list Value) (w : Worker) : Worker :=
  fold_left (fun w level => snd (routeSetLogLevel level w)) levels w.

End Background.

(* ------------------------------------------------------------------------- *)
(** ** Vocabulary of the further properties *)

Definition domEvent (id : nat) (ty : string) (key : option string) : DomEvent :=
  {| ev_target := id; ev_type := ty; ev_key := key |}.





(** The number of levels of an accessibility tree. *)
Fixpoint a11yHeight (n : A11yNode) : nat :=
  match n with
  | A11y _ _ _ _ children => S (list_max (List.map a11yHeight children))
  end.

(** A tree every node of which has a name, a child or an interactive tag. *)
#[warnings="-register-all"]
Inductive Retainable : A11yNode → Prop :=
| retainable role name tag mark children :
    name ≠ None ∨ children ≠ [] ∨ tag ∈ INTERACTIVE_TAGS →
    Forall Retainable children →
    Retainable (A11y role name tag mark children).

(** The values for which [fillForm] wants a checkbox or radio checked. *)
Definition asksChecked (v : Value) : Prop :=
  v = VBool true ∨ v = VStr "true" ∨ v = VStr "1".

Definition optionsWith (x y : option Z) (o : Options) : Options :=
  {| maxElements := maxElements o; includeHidden := includeHidden o;
     rightClick := rightClick o; clearFirst := clearFirst o;
     humanDelay := humanDelay o; opt_x := x; opt_y := y;
     opt_selector := opt_selector o |}.

(** A page with one unchecked checkbox. *)
Definition checkboxPage : Page :=
  Examples.page
    (Elem (Examples.el 1 "HTML" [])
       [Elem (Examples.el 2 "BODY" [])
          [Elem (Examples.input 3 "checkbox" "on" [("name", "agree")]) []]]).

(** The message types whose handlers only read the page. *)
Definition readingTypes : list string :=
  ["PING"; "GET_DOM_SNAPSHOT"; "GET_ACCESSIBILITY_TREE"; "GET_PAGE_INFO"; "FIND_ELEMENTS";
   "WAIT_FOR_SELECTOR"].

(* ------------------------------------------------------------------------- *)
(** ** Properties *)

(** *** The page tree *)

(** Structural induction that reaches the children. *)
Lemma Node_ind' (P : Node → Prop)
  (HT : ∀ s, P (Text s))
  (HE : ∀ el kids, Forall P kids → P (Elem el kids)) :
  ∀ n, P n.
Proof.
  fix IH 1. intros [s | el kids].
  - apply HT.
  - apply HE. induction kids as [| k ks IHks]; constructor; [apply IH | exact IHks].
Qed.

Lemma flat_elements_update id f kids :
  Forall (fun n => elements (updateProps id f n)
                   = List.map (updateElement id f) (elements n)) kids →
  flat_map elements (List.map (updateProps id f) kids)
  = List.map (updateElement id f) (flat_map elements kids).
Proof.
  induction 1 as [| k ks Hk _ IH]; simpl; [done |].
  by rewrite Hk, IH, List.map_app.
Qed.

Lemma elements_updateProps id f n :
  elements (updateProps id f n) = List.map (updateElement id f) (elements n).
Proof.
  induction n as [s | el kids IH] using Node_ind'; simpl; [done |].
  unfold updateElement at 1; simpl. f_equal. by apply flat_elements_update.
Qed.

Lemma descendants_updateElement id f el :
  descendants (updateElement id f el) = List.map (updateElement id f) (descendants el).
Proof.
  unfold descendants; simpl. apply flat_elements_update.
  apply Forall_forall; intros n _. apply elements_updateProps.
Qed.

Lemma eidOf_updateElement id f el :
  (∀ e, eid (f e) = eid e) → eidOf (updateElement id f el) = eidOf el.
Proof.
  intros Hf. unfold eidOf, updateElement; simpl. by destruct (Nat.eqb _ _).
Qed.

Lemma find_map_eid id (g : Element → Element) l :
  (∀ el, eidOf (g el) = eidOf el) →
  List.find (fun el => Nat.eqb (eid (props el)) id) (List.map g l)
  = g <$> List.find (fun el => Nat.eqb (eid (props el)) id) l.
Proof.
  intros Hg. induction l as [| a l IH]; simpl; [done |].
  change (eid (props (g a))) with (eidOf (g a)). rewrite Hg. unfold eidOf.
  by destruct (Nat.eqb _ _).
Qed.

Lemma findElement_updateProps i id f d :
  (∀ e, eid (f e) = eid e) →
  findElement i (updateProps id f d) = updateElement id f <$> findElement i d.
Proof.
  intros Hf. unfold findElement. rewrite elements_updateProps.
  apply find_map_eid. intros el. by apply eidOf_updateElement.
Qed.

Lemma scope_updateProps root id f d :
  (∀ e, eid (f e) = eid e) →
  scope root (updateProps id f d) = List.map (updateElement id f) (scope root d).
Proof.
  intros Hf. destruct root as [| r]; simpl.
  - apply elements_updateProps.
  - rewrite findElement_updateProps by done.
    destruct (findElement r d) as [el |]; simpl; [| done].
    apply descendants_updateElement.
Qed.

(** *** Clearing the marks *)

Lemma withDocument_same p : withDocument (documentElement p) p = p.
Proof. by destruct p. Qed.

Lemma scope_unmarkDoc root els d :
  scope root (unmarkDoc els d) = List.map (unmarkAll els) (scope root d).
Proof.
  revert d. induction els as [| e els IH]; intros d; simpl.
  - by rewrite List.map_id.
  - rewrite IH, scope_updateProps by done. by rewrite List.map_map.
Qed.

Lemma eidOf_unmarkAll els el : eidOf (unmarkAll els el) = eidOf el.
Proof.
  revert el. induction els as [| e els IH]; intros el; simpl; [done |].
  rewrite IH. by apply eidOf_updateElement.
Qed.

Lemma getAttribute_updateElement_unmark id el :
  getAttribute (updateElement id unmark el) MARK_ATTR
  = if Nat.eqb (eidOf el) id then None else getAttribute el MARK_ATTR.
Proof.
  unfold getAttribute, updateElement, eidOf; simpl.
  destruct (Nat.eqb _ _); simpl; [apply lookup_delete_eq | done].
Qed.

Lemma unmarkAll_stays_unmarked els el :
  getAttribute el MARK_ATTR = None → getAttribute (unmarkAll els el) MARK_ATTR = None.
Proof.
  revert el. induction els as [| e els IH]; intros el Hel; simpl; [done |].
  apply IH. rewrite getAttribute_updateElement_unmark. by destruct (Nat.eqb _ _).
Qed.

Lemma unmarkAll_listed els el :
  eidOf el ∈ List.map eidOf els → getAttribute (unmarkAll els el) MARK_ATTR = None.
Proof.
  revert el. induction els as [| e els IH]; intros el Hin; simpl in *.
  - by apply elem_of_nil in Hin.
  - destruct (Nat.eqb (eidOf el) (eidOf e)) eqn:He.
    + apply unmarkAll_stays_unmarked.
      by rewrite getAttribute_updateElement_unmark, He.
    + apply IH. rewrite eidOf_updateElement by done.
      apply elem_of_cons in Hin as [Heq | Hin]; [| done].
      apply Nat.eqb_neq in He. congruence.
Qed.

Lemma hasMark_false el : hasMark el = false → getAttribute el MARK_ATTR = None.
Proof.
  unfold hasMark. intros H. apply bool_decide_eq_false in H.
  destruct (getAttribute el MARK_ATTR); [| done]. exfalso; eauto.
Qed.

Lemma unmarkAll_filtered l el :
  el ∈ l → getAttribute (unmarkAll (List.filter hasMark l) el) MARK_ATTR = None.
Proof.
  intros Hin. destruct (hasMark el) eqn:Hm.
  - apply unmarkAll_listed. apply list_elem_of_fmap. exists el. split; [done |].
    apply list_elem_of_In, filter_In. by rewrite <- list_elem_of_In.
  - apply unmarkAll_stays_unmarked. by apply hasMark_false.
Qed.

Section Labeller.
Context {B : Browser} (laws : BrowserLaws B).

Lemma forEach_removeAttribute els p :
  forEach (fun el => removeAttribute el MARK_ATTR) els p
  = (Normal tt, withDocument (unmarkDoc els (documentElement p)) p).
Proof.
  revert p. induction els as [| e els IH]; intros p; simpl.
  - unfold ret. by rewrite withDocument_same.
  - unfold bind, removeAttribute, modify. by rewrite IH.
Qed.

Lemma querySelectorAll_hasMark root d :
  querySelectorAll root ("[" +:+ MARK_ATTR +:+ "]") d
  = Normal (List.filter hasMark (scope root d)).
Proof.
  destruct (css_has_mark B laws) as (f & Hf & Hfd).
  unfold querySelectorAll. rewrite Hf. f_equal. apply filter_ext. intros el. apply Hfd.
Qed.

Lemma clearSetOfMarks_run root p :
  clearSetOfMarks root p
  = (Normal tt,
     withDocument (unmarkDoc (List.filter hasMark (scope root (documentElement p)))
                     (documentElement p)) p).
Proof.
  unfold clearSetOfMarks, bind, liftRead. rewrite querySelectorAll_hasMark.
  apply forEach_removeAttribute.
Qed.

Lemma querySelector_mark_absent v d :
  cssPlain v = true →
  (∀ el, el ∈ elements d → getAttribute el MARK_ATTR ≠ Some v) →
  querySelector DocumentNode ("[" +:+ MARK_ATTR +:+ "=" +:+ dq +:+ v +:+ dq +:+ "]") d
  = Normal None.
Proof.
  intros Hv Habs. destruct (css_mark_value B laws v Hv) as (f & Hf & Hfd).
  unfold querySelector, querySelectorAll. rewrite Hf. f_equal.
  simpl. induction (elements d) as [| el l IH]; simpl; [done |].
  rewrite Hfd. unfold hasMarkValue. rewrite bool_decide_eq_false_2.
  - apply IH. intros el' Hin. apply Habs. by apply elem_of_cons; right.
  - apply Habs. apply elem_of_cons. by left.
Qed.

End Labeller.

(** *** The small browser obeys the laws *)

Lemma untilQuote_plain v rest :
  cssPlain v = true → Mini.untilQuote (v +:+ dq +:+ rest) = Some (v, rest).
Proof.
  induction v as [| c v IH]; simpl; intros Hv; [done |].
  apply andb_prop in Hv as [Hc Hv]. rewrite (IH Hv).
  destruct (Ascii.eqb c (ascii_of_nat 34)) eqn:Hq; [| done].
  apply Ascii.eqb_eq in Hq. subst c. discriminate Hc.
Qed.

Lemma stripPrefix_app pre s : Mini.stripPrefix pre (pre +:+ s) = Some s.
Proof.
  induction pre as [| c pre IH]; simpl; [by destruct s |].
  by rewrite Ascii.eqb_refl.
Qed.

Lemma Mini_laws : BrowserLaws Mini.browser.
Proof.
  split.
  - exists (fun _ => hasMark). split; [by vm_compute | done].
  - intros v Hv. exists (fun _ => hasMarkValue v). split; [| done].
    change ("[" +:+ MARK_ATTR +:+ "=" +:+ dq +:+ v +:+ dq +:+ "]")
      with (("[" +:+ MARK_ATTR +:+ "=" +:+ dq) +:+ (v +:+ dq +:+ "]")).
    unfold cssMatches, Mini.browser, Mini.css.
    rewrite stripPrefix_app, untilQuote_plain by done.
    by rewrite Hv.
  - exists (fun _ => qualifies). split; [by vm_compute | done].
Qed.

Lemma unmarkAll_attr_only_removed els el v :
  getAttribute (unmarkAll els el) MARK_ATTR = Some v → getAttribute el MARK_ATTR = Some v.
Proof.
  revert el. induction els as [| e els IH]; intros el; simpl; [done |].
  intros H. apply IH in H. rewrite getAttribute_updateElement_unmark in H.
  by destruct (Nat.eqb _ _).
Qed.

(** C9.  After [clearSetOfMarks(root)] no element under [root] (no element
    of the document when [root] is the document, the default) carries the
    mark attribute; and a target [{mark: m}] whose mark was carried under
    [root] only no longer resolves: [resolveTarget] throws
    "No element with mark m". *)
Theorem clearSetOfMarks_clears `{B : Browser} (laws : BrowserLaws B)
    (root : ParentNode) (p : Page) :
  ∃ p', clearSetOfMarks root p = (Normal tt, p')
    ∧ (∀ el, el ∈ scope root (documentElement p') → getAttribute el MARK_ATTR = None)
    ∧ (∀ m s xp,
         isStringOrNumber m = true → cssPlain (ToString m) = true →
         (∀ el, el ∈ elements (documentElement p) →
                getAttribute el MARK_ATTR = Some (ToString m) →
                el ∈ scope root (documentElement p)) →
         resolveTarget (Some {| mark := m; selector := s; xpath := xp |})
                       (documentElement p')
         = Throw (Error ("No element with mark " +:+ ToString m))).
Proof.
  eexists. split; [apply (clearSetOfMarks_run laws) |].
  set (d := documentElement p). set (els := List.filter hasMark (scope root d)).
  simpl. split.
  - intros el' Hin. rewrite scope_unmarkDoc in Hin.
    apply list_elem_of_fmap in Hin as (el & -> & Hel).
    by apply unmarkAll_filtered.
  - intros m s xp Hm Hplain Hunder. unfold resolveTarget; simpl. rewrite Hm.
    unfold markSelector.
    rewrite (querySelector_mark_absent laws); [done | done |].
    intros el' Hin Hattr.
    change (elements (unmarkDoc els d)) with (scope DocumentNode (unmarkDoc els d)) in Hin.
    rewrite scope_unmarkDoc in Hin.
    apply list_elem_of_fmap in Hin as (el & -> & Hel).
    pose proof (unmarkAll_attr_only_removed _ _ _ Hattr) as Hbefore.
    assert (getAttribute (unmarkAll els el) MARK_ATTR = None) as Hnone
      by (apply unmarkAll_filtered; by apply Hunder).
    congruence.
Qed.

(** A run of C9: on the example page, where a paragraph carries the mark
    "7", clearing the document leaves no mark and [{mark: "7"}] fails. *)
Lemma clearSetOfMarks_clears_witness :
  ∃ p', @clearSetOfMarks Mini.browser DocumentNode Examples.formPage = (Normal tt, p')
    ∧ (∀ el, el ∈ elements (documentElement p') → getAttribute el MARK_ATTR = None)
    ∧ @resolveTarget Mini.browser (Examples.byMark "7") (documentElement p')
      = Throw (Error "No element with mark 7").
Proof.
  destruct (@clearSetOfMarks_clears Mini.browser Mini_laws DocumentNode Examples.formPage)
    as (p' & Hrun & Hnone & Hres).
  exists p'. split; [exact Hrun |]. split; [exact Hnone |].
  apply (Hres (VStr "7") VUndef VUndef); [reflexivity | reflexivity |].
  intros el Hin _. exact Hin.
Defined.

(** *** The accessibility tree *)

Lemma buildA11yNode_too_deep n depth maxDepth :
  maxDepth < depth → buildA11yNode n depth maxDepth = None.
Proof.
  intros H. destruct n as [s | e kids]; simpl; [done |].
  by rewrite (proj2 (Z.gtb_lt depth maxDepth) H).
Qed.

Lemma omap_all_none {A C} (f : A → option C) l :
  (∀ a, f a = None) → omap f l = [].
Proof. intros H. induction l as [| a l IH]; simpl; [done |]. by rewrite H. Qed.

(** C1, the failing instance.  The body of an empty page has no name, no
    child and no interactive tag: [buildA11yNode] prunes it although it is
    the root, and [getAccessibilityTree(0)] answers with a null tree. *)
Lemma root_pruned_on_empty_body :
  buildA11yNode (Elem (Examples.el 3 "BODY" []) []) 0 0 = None
  ∧ getAccessibilityTree (Some 0) Examples.emptyBody
    = Normal {| t_url := "https://example.test/"; t_title := "Example"; tree := None |}.
Proof. split; reflexivity. Qed.

(** C1, as the code has it.  The root is exempt from the visibility test
    only.  At depth 0 and with [maxDepth >= 0], [buildA11yNode] answers
    null exactly when the root is hidden from assistive technology, or has
    no name, no retained child and no interactive tag.  In particular
    [getAccessibilityTree(0)] gives a root node with an empty child list
    when the root element (the body if there is one) is not [aria-hidden]
    and has a name or an interactive tag, and a null tree otherwise. *)
Theorem root_retained_when_named_or_interactive (p : Page) (el : Element) (maxDepth : Z) :
  0 ≤ maxDepth →
  (body p = Some el ∨ body p = None ∧ rootElement p = Some el) →
  let retained := omap (fun child => buildA11yNode child 1 maxDepth) (childNodes el) in
  (buildA11yNode (nodeOf el) 0 maxDepth = None
   ↔ getAttribute el "aria-hidden" = Some "true"
     ∨ (a11yName el = None ∧ retained = [] ∧ tagName (props el) ∉ INTERACTIVE_TAGS))
  ∧ getAccessibilityTree (Some 0) p
    = Normal {| t_url := url p; t_title := title p;
                tree :=
                  if bool_decide (getAttribute el "aria-hidden" = Some "true") then None
                  else if bool_decide (a11yName el = None)
                          && negb (bool_decide (tagName (props el) ∈ INTERACTIVE_TAGS))
                  then None
                  else Some (A11y (a11yRole el) (a11yName el) (tagName (props el))
                               (orElse (getAttribute el MARK_ATTR) None) []) |}.
Proof.
  intros Hdepth Hroot retained. split.
  - destruct el as [e kids]. subst retained. unfold nodeOf; simpl.
    assert ((0 >? maxDepth) = false) as -> by (rewrite Z.gtb_ltb; by apply Z.ltb_ge).
    rewrite andb_false_r. change (0 + 1) with 1.
    case_bool_decide as Hhid; [by split; [left |] |].
    case_bool_decide as Hname; simpl.
    + destruct (omap _ kids) as [| c cs]; simpl.
      * case_bool_decide as Htag; simpl.
        -- split; [done | intros [? | (_ & _ & ?)]; done].
        -- split; [by right | done].
      * split; [done | intros [? | (_ & ? & _)]; done].
    + split; [done | intros [? | (? & _)]; done].
  - assert (getAccessibilityTree (Some 0) p
            = Normal {| t_url := url p; t_title := title p;
                        tree := buildA11yNode (nodeOf el) 0 0 |}) as ->.
    { unfold getAccessibilityTree.
      destruct Hroot as [-> | [-> ->]]; [| done]. by destruct (rootElement p). }
    do 2 f_equal. destruct el as [e kids]. unfold nodeOf; simpl.
    rewrite omap_all_none by (intros; by apply buildA11yNode_too_deep).
    case_bool_decide; [done |]. simpl.
    change (0 >? 0) with false. by rewrite !andb_false_r, andb_true_r.
Qed.

(** A run of C1's amended form: the body of the example page has text, so
    the tree at [maxDepth = 0] is its root alone. *)
Lemma root_retained_when_named_or_interactive_witness :
  getAccessibilityTree (Some 0) Examples.formPage
  = Normal {| t_url := "https://example.test/"; t_title := "Example";
              tree := Some (A11y "body" (Some "Sign inHelpHidden") "BODY" None []) |}.
Proof.
  refine (eq_trans
    (proj2 (root_retained_when_named_or_interactive Examples.formPage
              (Examples.el 3 "BODY" [], _) 0 _ (or_introl eq_refl))) _);
    [lia | reflexivity].
Defined.

(** C5, the failing instance.  An input with [aria-labelledby] and an
    associated label: [describeElement] labels it by the reference, the
    tree builder finds no name. *)
Lemma a11yName_differs_from_label :
  a11yName Examples.labelledInput = None
  ∧ d_label (describeElement Examples.labelledInput) = Some "name-label"
  ∧ buildA11yNode (nodeOf Examples.labelledInput) 0 8
    = Some (A11y "textbox" None "INPUT" None []).
Proof. repeat split; reflexivity. Qed.

Lemma orElse_falsy a b : falsy a → orElse a b = b.
Proof. by intros [-> | ->]. Qed.

(** C5, as the code has it.  The tree builder's chain is explicit label
    attribute, title, placeholder, own trimmed text cut to 80 units, else
    null: it leaves out the label-reference attribute and the associated
    label element.  So the name in a built node equals the descriptor's
    label for every element that has no (non-empty) [aria-labelledby] and
    no associated label with text. *)
Theorem a11yName_is_label_without_label_reference
    (el : Element) (depth maxDepth : Z)
    (role : string) (name : option string) (tag : string) (mark : option string)
    (children : list A11yNode) :
  falsy (getAttribute el "aria-labelledby") →
  falsy (firstLabelText el) →
  buildA11yNode (nodeOf el) depth maxDepth = Some (A11y role name tag mark children) →
  name = a11yName el ∧ name = d_label (describeElement el).
Proof.
  intros Href Hlab Hnode.
  assert (name = a11yName el) as ->.
  { destruct el as [e kids]. unfold nodeOf in Hnode; simpl in Hnode.
    repeat match type of Hnode with
           | (if ?c then _ else _) = _ => destruct c; [discriminate |]
           end.
    by injection Hnode. }
  split; [done |].
  unfold describeElement, a11yName; simpl.
  by rewrite (orElse_falsy _ _ Href), (orElse_falsy _ _ Hlab).
Qed.

(** A run of C5's amended form, on the link of the example page. *)
Lemma a11yName_is_label_without_label_reference_witness :
  Some "Help" = d_label (describeElement (Examples.el 5 "A" [("href", "/help")], [Text "Help"])).
Proof.
  refine (proj2 (a11yName_is_label_without_label_reference
                   (Examples.el 5 "A" [("href", "/help")], [Text "Help"]) 1 8
                   "link" (Some "Help") "A" None [] _ _ _));
    [by left | by left | reflexivity].
Defined.

(** *** The target resolver *)

Lemma querySelector_throws_dom `{B : Browser} root sel d e :
  querySelector root sel d = Throw e → ∃ m, e = DOMException m.
Proof.
  unfold querySelector, querySelectorAll, syntaxError.
  destruct (cssMatches sel); [done |]. intros [= <-]. eauto.
Qed.

Lemma evaluateXPath_throws_dom `{B : Browser} expr d e :
  evaluateXPath expr d = Throw e → ∃ m, e = DOMException m.
Proof.
  unfold evaluateXPath. destruct (xpathFirst expr d); [done |]. intros [= <-]. eauto.
Qed.

Lemma found_not_found lookup msg :
  (∀ e, lookup = Throw e → ∃ m, e = DOMException m) →
  (∃ e, found lookup ("No element " +:+ msg) = Throw e ∧ isTargetNotFound e)
  ↔ lookup = Normal None.
Proof.
  intros Hdom. split.
  - intros (e & Hthrow & what & ->).
    destruct lookup as [[el |] | e']; simpl in Hthrow; [done | done |].
    destruct (Hdom e' eq_refl) as [m ->]. done.
  - intros ->. simpl. eexists. split; [done |]. by exists msg.
Qed.

(** C3.  [resolveTarget] looks at [mark] first (a string or a number),
    then at [selector], then at [xpath] (each when truthy), whatever the
    later keys hold.  When one of them is set, it throws a "No element .."
    error exactly when the lookup it chose finds nothing; when none of the
    three keys is there, it throws "target must have mark, selector, or
    xpath", and "target is required" without a target. *)
Theorem resolveTarget_preference_and_errors `{B : Browser} (t : Target) (d : Node) :
  let byMark := querySelector DocumentNode (markSelector (mark t)) d in
  let bySelector := querySelector DocumentNode (ToString (selector t)) d in
  let byXPath := evaluateXPath (ToString (xpath t)) d in
  let markSet := isStringOrNumber (mark t) in
  let selectorSet := truthy (selector t) in
  let xpathSet := truthy (xpath t) in
  let chosen := if markSet then byMark else if selectorSet then bySelector else byXPath in
  (markSet = true →
     resolveTarget (Some t) d
     = found byMark ("No element with mark " +:+ ToString (mark t)))
  ∧ (markSet = false → selectorSet = true →
     resolveTarget (Some t) d
     = found bySelector ("No element matching " +:+ dq +:+ ToString (selector t) +:+ dq))
  ∧ (markSet = false → selectorSet = false → xpathSet = true →
     resolveTarget (Some t) d
     = found byXPath ("No element at XPath " +:+ dq +:+ ToString (xpath t) +:+ dq))
  ∧ (markSet || selectorSet || xpathSet = true →
     ((∃ e, resolveTarget (Some t) d = Throw e ∧ isTargetNotFound e)
      ↔ chosen = Normal None))
  ∧ (mark t = VUndef → selector t = VUndef → xpath t = VUndef →
     ∃ e, resolveTarget (Some t) d = Throw e ∧ isInvalidTarget e)
  ∧ (markSet || selectorSet || xpathSet = false →
     resolveTarget (Some t) d = Throw (Error "target must have mark, selector, or xpath"))
  ∧ resolveTarget None d = Throw (Error "target is required").
Proof.
  intros byMark bySelector byXPath markSet selectorSet xpathSet chosen.
  assert (resolveTarget (Some t) d
          = if markSet then found byMark ("No element with mark " +:+ ToString (mark t))
            else if selectorSet
                 then found bySelector
                        ("No element matching " +:+ dq +:+ ToString (selector t) +:+ dq)
                 else if xpathSet
                      then found byXPath
                             ("No element at XPath " +:+ dq +:+ ToString (xpath t) +:+ dq)
                      else Throw (Error "target must have mark, selector, or xpath")) as Hres.
  { unfold resolveTarget, found.
    subst markSet selectorSet xpathSet byMark bySelector byXPath.
    destruct (isStringOrNumber (mark t)).
    - by destruct (querySelector _ _ d) as [[?|]|].
    - destruct (truthy (selector t)).
      + by destruct (querySelector _ _ d) as [[?|]|].
      + destruct (truthy (xpath t)); [| done].
        by destruct (evaluateXPath _ d) as [[?|]|]. }
  rewrite Hres. clear Hres. subst chosen.
  split; [by intros -> |]. split; [by intros -> -> |]. split; [by intros -> -> -> |].
  split; [| split; [| split; [| done]]].
  - intros Hset. destruct markSet; [| destruct selectorSet; [| destruct xpathSet; [| done]]].
    + apply (found_not_found byMark ("with mark " +:+ ToString (mark t))).
      intros e. apply querySelector_throws_dom.
    + apply (found_not_found bySelector
               ("matching " +:+ dq +:+ ToString (selector t) +:+ dq)).
      intros e. apply querySelector_throws_dom.
    + apply (found_not_found byXPath
               ("at XPath " +:+ dq +:+ ToString (xpath t) +:+ dq)).
      intros e. apply evaluateXPath_throws_dom.
  - intros Hm Hs Hx. subst markSet selectorSet xpathSet. rewrite Hm, Hs, Hx. simpl.
    eexists. split; [done |]. by right.
  - intros Hnone. by destruct markSet, selectorSet, xpathSet.
Qed.

(** *** The message handler *)

Lemma bind_normal {A C} (m : M A) (k : A → M C) p c p' :
  bind m k p = (Normal c, p') → ∃ a p1, m p = (Normal a, p1) ∧ k a p1 = (Normal c, p').
Proof.
  unfold bind. destruct (m p) as [[a | e] p1]; [| done]. eauto.
Qed.

Lemma bind_success {A} (m : M A) (f : A → Payload) p r p' :
  bind m (fun a => ret (success (f a))) p = (Normal r, p') →
  ok r = true ∧ error r = None.
Proof.
  unfold bind, ret. destruct (m p) as [[a | e] p1]; [| done].
  by intros [= <- _].
Qed.

(** C4, the failing instance.  When the wait times out the handler returns
    [{ ok: false, timedOut: true }]: a failure without an [error]. *)
Lemma wait_timeout_has_no_error :
  fst (@onMessage Mini.browser
         {| m_type := "WAIT_FOR_SELECTOR"; m_options := None; m_maxDepth := None;
            m_target := None; m_text := VUndef; m_fields := None;
            m_selector := VStr "dialog"; m_limit := None; m_timeout := Some 1000 |}
         [] Examples.formPage)
  = {| ok := false; error := None; payload := TimedOutOf true |}.
Proof. reflexivity. Qed.

Lemma eqb_of_not_elem (ty k : string) (l : list string) :
  ty ∉ k :: l → String.eqb ty k = false ∧ ty ∉ l.
Proof.
  intros H. apply not_elem_of_cons in H as [Hne Hl]. split; [| done].
  by apply String.eqb_neq.
Qed.

(** C4, as the code has it.  Every response is a success, or a failure with
    an error message, or (for [WAIT_FOR_SELECTOR] alone, when the wait
    timed out) the failure [{ ok: false, timedOut: true }] that has no
    error.  A message type without a case gets the failure "Unknown message
    type: ..", and an exception thrown inside a handler becomes
    [{ ok: false, error: err.message }]. *)
Theorem onMessage_response_shape `{B : Browser}
    (message : Message) (mutations : list Node) (p : Page) :
  let r := fst (onMessage message mutations p) in
  ((ok r = true ∧ error r = None)
   ∨ (ok r = false ∧ ∃ msg, error r = Some msg)
   ∨ (m_type message = "WAIT_FOR_SELECTOR"
      ∧ r = {| ok := false; error := None; payload := TimedOutOf true |}))
  ∧ (m_type message ∉ knownTypes →
     r = {| ok := false; error := Some ("Unknown message type: " +:+ m_type message);
            payload := NoPayload |})
  ∧ (∀ err p', handle message mutations p = (Throw err, p') →
     r = {| ok := false; error := Some (Js.message err); payload := NoPayload |}).
Proof.
  intros r. subst r. unfold onMessage. split; [| split].
  - destruct (handle message mutations p) as [[r | e] p'] eqn:Hh; simpl;
      [| right; left; eauto].
    unfold handle in Hh.
    repeat match type of Hh with
           | (if String.eqb ?a ?b then _ else _) _ = _ =>
               let E := fresh "E" in destruct (String.eqb a b) eqn:E
           end;
      try (injection Hh as <- _; simpl; by auto);
      try (apply bind_success in Hh; by left).
    + apply bind_normal in Hh as (m & p1 & _ & Hh). injection Hh as <- _. by left.
    + destruct (m_fields message) as [fields |]; [| done].
      apply bind_success in Hh. by left.
    + apply bind_normal in Hh as ([] & p1 & _ & Hh); injection Hh as <- _; simpl.
      * by left.
      * right; right. split; [by apply String.eqb_eq |]. done.
    + injection Hh as <- _. simpl. right; left. eauto.
  - intros Hty. unfold knownTypes in Hty. unfold handle.
    repeat (apply eqb_of_not_elem in Hty as [-> Hty]).
    done.
  - by intros err p' ->.
Qed.

(** *** Form automation *)

Lemma find_optionMatches_none v opts :
  (∀ o, o ∈ opts → v ≠ VStr (o_value o) ∧ v ≠ VStr (o_text o)) →
  List.find (optionMatches v) opts = None.
Proof.
  intros H. induction opts as [| o opts IH]; simpl; [done |].
  destruct (H o) as [Hv Ht]; [by apply elem_of_cons; left |].
  assert (optionMatches v o = false) as ->.
  { unfold optionMatches, strictEqStr. destruct v as [| | | | s]; try done.
    apply orb_false_intro; apply String.eqb_neq; congruence. }
  apply IH. intros o' Ho'. apply H. by apply elem_of_cons; right.
Qed.

(** C10.  For a field of type 'select' whose target resolves to an element
    with an option list in which no option has the given value as its
    value or its text, [fillForm] only focuses the element: the document
    (and with it the selection) and the event log stay as they were, so no
    change event is sent, and the field's entry is [{ target, ok: true }]
    without an error.  The remaining fields are processed from there. *)
Theorem fillForm_select_without_matching_option `{B : Browser}
    (f : Field) (rest : list Field) (results : list FieldResult) (p : Page)
    (el : Element) (opts : list OptionEl) :
  f_type f = VStr "select" →
  resolveTarget (f_target f) (documentElement p) = Normal el →
  options (props el) = Some opts →
  (∀ o, o ∈ opts → f_value f ≠ VStr (o_value o) ∧ f_value f ≠ VStr (o_text o)) →
  ∃ p', fillFormFrom (f :: rest) results p
        = fillFormFrom rest
            (results ++ [{| r_target := f_target f; r_ok := true; r_error := None |}]) p'
        ∧ documentElement p' = documentElement p
        ∧ events p' = events p
        ∧ activeElement p' = Some (eidOf el).
Proof.
  intros Hty Hres Hopts Hnone.
  exists (withActiveElement (Some (eidOf el)) p). split; [| done].
  simpl. unfold bind at 1, tryCatch, bind at 1, fillField, bind at 1, liftRead.
  rewrite Hres, Hty. simpl. unfold bind at 1, focus, modify.
  by rewrite Hopts, (find_optionMatches_none _ _ Hnone).
Qed.

(** A run of C10: asking the select of the example page for "Italian". *)
Lemma fillForm_select_without_matching_option_witness :
  ∃ p', @fillForm Mini.browser
          [{| f_target := Examples.bySelector "select"; f_value := VStr "Italian";
              f_type := VStr "select" |}] Examples.formPage
        = (Normal [{| r_target := Examples.bySelector "select"; r_ok := true;
                      r_error := None |}], p')
        ∧ documentElement p' = documentElement Examples.formPage
        ∧ events p' = [].
Proof.
  destruct (@fillForm_select_without_matching_option Mini.browser
              {| f_target := Examples.bySelector "select"; f_value := VStr "Italian";
                 f_type := VStr "select" |} [] [] Examples.formPage
              (Examples.select 8
                 [ {| o_value := "de"; o_text := "German"; o_selected := true |};
                   {| o_value := "fr"; o_text := "French"; o_selected := false |} ], [])
              _ eq_refl eq_refl eq_refl)
    as (p' & Hrun & Hdoc & Hev & _).
  - intros o Ho. repeat (apply elem_of_cons in Ho as [-> | Ho]; [by split |]).
    by apply elem_of_nil in Ho.
  - exists p'. split; [exact Hrun |]. split; [exact Hdoc | exact Hev].
Defined.

Lemma fillFormFrom_step `{B : Browser} f rest results p :
  fillFormFrom (f :: rest) results p
  = fillFormFrom rest (results ++ [entryOf f (fst (fillField f p))]) (snd (fillField f p)).
Proof.
  simpl. unfold bind at 1, tryCatch, bind at 1.
  by destruct (fillField f p) as [[[] | e] p1].
Qed.

Lemma fillFormFrom_results `{B : Browser} fields results p :
  fillFormFrom fields results p
  = (match fst (fillForm fields p) with
     | Normal more => Normal (results ++ more)
     | Throw e => Throw e
     end, snd (fillForm fields p)).
Proof.
  unfold fillForm. revert results p.
  induction fields as [| f rest IH]; intros results p.
  - simpl. unfold ret; simpl. by rewrite app_nil_r.
  - rewrite !fillFormFrom_step, IH, (IH ([] ++ _)). simpl.
    destruct (fst (fillFormFrom rest [] _)); [| done].
    by rewrite <- app_assoc.
Qed.

Lemma fillForm_cons `{B : Browser} f rest p results p' :
  fillForm rest (snd (fillField f p)) = (Normal results, p') →
  fillForm (f :: rest) p = (Normal (entryOf f (fst (fillField f p)) :: results), p').
Proof.
  intros Hrest. unfold fillForm at 1.
  rewrite fillFormFrom_step, fillFormFrom_results, Hrest. done.
Qed.

Lemma fillForm_total `{B : Browser} fields p :
  ∃ results p',
    fillForm fields p = (Normal results, p')
    ∧ List.map r_target results = List.map f_target fields
    ∧ Forall (fun r => (r_ok r = true ∧ r_error r = None)
                       ∨ (r_ok r = false ∧ ∃ msg, r_error r = Some msg)) results.
Proof.
  revert p. induction fields as [| f rest IH]; intros p.
  - exists [], p. by repeat split.
  - destruct (IH (snd (fillField f p))) as (results & p' & Hrest & Hts & Hall).
    eexists _, p'. split; [by apply fillForm_cons |].
    split; [simpl; by rewrite Hts; destruct (fst (fillField f p)) |].
    constructor; [| done].
    destruct (fst (fillField f p)); simpl; eauto.
Qed.

Lemma fillForm_app `{B : Browser} pre post p r1 p1 r2 p2 :
  fillForm pre p = (Normal r1, p1) →
  fillForm post p1 = (Normal r2, p2) →
  fillForm (pre ++ post) p = (Normal (r1 ++ r2), p2).
Proof.
  revert p r1. induction pre as [| f pre IH]; intros p r1 Hpre Hpost.
  - injection Hpre as <- <-. done.
  - destruct (fillForm_total pre (snd (fillField f p))) as (r & p' & Hr & _).
    rewrite (fillForm_cons _ _ _ _ _ Hr) in Hpre. injection Hpre as <- <-.
    simpl. apply fillForm_cons. by apply IH.
Qed.

Lemma fillField_unresolved `{B : Browser} f p e :
  resolveTarget (f_target f) (documentElement p) = Throw e →
  fillField f p = (Throw e, p).
Proof.
  intros Hres. unfold fillField, bind, liftRead. by rewrite Hres.
Qed.

(** C7.  [fillForm] never throws and returns one entry per field, in the
    order of the fields, each either [{ ok: true }] or [{ ok: false,
    error }].  A field whose processing throws (an unresolvable target, for
    one, which leaves the page as it was) gets the entry with the
    exception's message, and the fields after it are processed exactly as
    they would be on their own from the page it left. *)
Theorem fillForm_one_entry_per_field `{B : Browser} (fields : list Field) (p : Page) :
  (∃ results p',
     fillForm fields p = (Normal results, p')
     ∧ length results = length fields
     ∧ List.map r_target results = List.map f_target fields
     ∧ Forall (fun r => (r_ok r = true ∧ r_error r = None)
                        ∨ (r_ok r = false ∧ ∃ msg, r_error r = Some msg)) results)
  ∧ (∀ pre f post e r1 p1 p2,
       fields = pre ++ f :: post →
       fillForm pre p = (Normal r1, p1) →
       fillField f p1 = (Throw e, p2) →
       ∃ r2 p',
         fillForm post p2 = (Normal r2, p')
         ∧ fillForm fields p
           = (Normal (r1 ++ {| r_target := f_target f; r_ok := false;
                               r_error := Some (message e) |} :: r2), p'))
  ∧ (∀ f p1 e,
       resolveTarget (f_target f) (documentElement p1) = Throw e →
       fillField f p1 = (Throw e, p1)).
Proof.
  split; [| split].
  - destruct (fillForm_total fields p) as (results & p' & Hrun & Hts & Hall).
    exists results, p'. repeat split; try done.
    by rewrite <- (length_map r_target), Hts, length_map.
  - intros pre f post e r1 p1 p2 -> Hpre Hf.
    destruct (fillForm_total post p2) as (r2 & p' & Hpost & _).
    exists r2, p'. split; [done |].
    apply (fillForm_app _ _ _ _ p1); [done |].
    assert (p2 = snd (fillField f p1)) as Hp2 by (by rewrite Hf).
    rewrite Hp2 in Hpost. rewrite (fillForm_cons _ _ _ _ _ Hpost). by rewrite Hf.
  - intros f p1 e. apply fillField_unresolved.
Qed.

(** *** Typing *)



Lemma findElement_eid id d el : findElement id d = Some el → eid (props el) = id.
Proof.
  unfold findElement. intros H. apply find_some in H as [_ H]. by apply Nat.eqb_eq.
Qed.


Lemma findElement_written id f d el :
  (∀ e, eid (f e) = eid e) →
  findElement id d = Some el →
  ∃ el', findElement id (updateProps id f d) = Some el' ∧ props el' = f (props el).
Proof.
  intros Hf Hfind. rewrite findElement_updateProps, Hfind by done. simpl.
  eexists. split; [done |]. unfold updateElement; simpl.
  by rewrite (findElement_eid _ _ _ Hfind), Nat.eqb_refl.
Qed.





(** *** Waiting for a selector *)










(** *** Labelling *)

Lemma filter_map_invariant {A} (q : A → bool) (g : A → A) l :
  (∀ a, q (g a) = q a) → List.filter q (List.map g l) = List.map g (List.filter q l).
Proof.
  intros Hq. induction l as [| a l IH]; simpl; [done |].
  rewrite Hq. destruct (q a); simpl; by rewrite IH.
Qed.

Lemma NoDup_map_filter {A C} (f : A → C) (q : A → bool) l :
  NoDup (List.map f l) → NoDup (List.map f (List.filter q l)).
Proof.
  induction l as [| a l IH]; simpl; [done |].
  intros [Hnot Hrest]%NoDup_cons. destruct (q a); simpl; [| by apply IH].
  apply NoDup_cons. split; [| by apply IH].
  intros Hin. apply Hnot.
  apply list_elem_of_fmap in Hin as (b & -> & Hb). apply list_elem_of_fmap.
  exists b. split; [done |]. apply list_elem_of_In in Hb. apply filter_In in Hb as [Hb _].
  by apply list_elem_of_In.
Qed.

Lemma NoDup_map_eq {A C} (f : A → C) l a b :
  NoDup (List.map f l) → a ∈ l → b ∈ l → f a = f b → a = b.
Proof.
  induction l as [| c l IH]; simpl; intros Hnd Ha Hb Hf.
  - by apply elem_of_nil in Ha.
  - apply NoDup_cons in Hnd as [Hnot Hnd].
    apply elem_of_cons in Ha as [-> | Ha]; apply elem_of_cons in Hb as [-> | Hb].
    + done.
    + exfalso. apply Hnot. rewrite Hf. apply list_elem_of_fmap. eauto.
    + exfalso. apply Hnot. rewrite <- Hf. apply list_elem_of_fmap. eauto.
    + by apply IH.
Qed.

(** [markOf] is one-to-one: decimal notation is. *)
Lemma NumberToString_inj a b : NumberToString a = NumberToString b → a = b.
Proof.
  unfold NumberToString. intros H. apply DecimalZ.to_int_inj.
  assert (Some (Z.to_int a) = Some (Z.to_int b)) as [= ->]; [| done].
  by rewrite <- !NilEmpty.isi, H.
Qed.

Lemma markOf_inj i j : markOf i = markOf j → i = j.
Proof. unfold markOf. intros H%NumberToString_inj. lia. Qed.

(** Writes to the mark attribute leave everything else of an element. *)
Lemma sameButMark_refl e : sameButMark e e.
Proof. by repeat split. Qed.

Lemma sameButMark_trans a b c : sameButMark a b → sameButMark b c → sameButMark a c.
Proof.
  intros (? & ? & ? & ? & Hab) (? & ? & ? & ? & Hbc). repeat split; try congruence.
  intros k Hk. by rewrite Hbc, Hab.
Qed.

Lemma sameButMark_unmark e : sameButMark e (unmark e).
Proof.
  repeat split. intros a Ha. simpl. by apply lookup_delete_ne.
Qed.

Lemma sameButMark_setMark m e : sameButMark e (setMark m e).
Proof.
  repeat split. intros a Ha. simpl. by apply lookup_insert_ne.
Qed.

Lemma sameButMark_updateElement id f el :
  (∀ e, sameButMark e (f e)) → sameButMark (props el) (props (updateElement id f el)).
Proof.
  intros Hf. unfold updateElement; simpl.
  destruct (Nat.eqb _ _); [apply Hf | apply sameButMark_refl].
Qed.

Lemma sameButMark_qualifies el el' :
  sameButMark (props el) (props el') → qualifies el' = qualifies el.
Proof.
  intros (_ & Htag & _ & _ & Hattr). unfold qualifies, getAttribute.
  by rewrite Htag, !Hattr.
Qed.

Lemma sameButMark_isVisible el el' :
  sameButMark (props el) (props el') → isVisible el' = isVisible el.
Proof.
  intros (_ & _ & Hrect & Hstyle & _). unfold isVisible. by rewrite Hrect, Hstyle.
Qed.

Lemma visibleQualifying_map (g : Element → Element) l :
  (∀ el, sameButMark (props el) (props (g el))) →
  List.filter isVisible (List.filter qualifies (List.map g l))
  = List.map g (List.filter isVisible (List.filter qualifies l)).
Proof.
  intros Hg.
  rewrite !filter_map_invariant; [done | |].
  - intros el. by apply sameButMark_isVisible.
  - intros el. by apply sameButMark_qualifies.
Qed.

Lemma sameButMark_unmarkAll els el : sameButMark (props el) (props (unmarkAll els el)).
Proof.
  revert el. induction els as [| e els IH]; intros el; simpl.
  - apply sameButMark_refl.
  - eapply sameButMark_trans; [| apply IH].
    apply sameButMark_updateElement, sameButMark_unmark.
Qed.

Lemma sameButMark_labelled els idx el : sameButMark (props el) (props (labelled els idx el)).
Proof.
  revert idx el. induction els as [| e els IH]; intros idx el; simpl.
  - apply sameButMark_refl.
  - eapply sameButMark_trans; [| apply IH].
    apply sameButMark_updateElement, sameButMark_setMark.
Qed.

Lemma eidOf_same el el' : sameButMark (props el) (props el') → eidOf el' = eidOf el.
Proof. by intros (? & _). Qed.

Lemma elements_labelDoc els idx d :
  elements (labelDoc els idx d) = List.map (labelled els idx) (elements d).
Proof.
  revert idx d. induction els as [| e els IH]; intros idx d; simpl.
  - by rewrite List.map_id.
  - by rewrite IH, elements_updateProps, List.map_map.
Qed.

Lemma labelled_props_notin els idx el :
  eidOf el ∉ List.map eidOf els → props (labelled els idx el) = props el.
Proof.
  revert idx el. induction els as [| e els IH]; intros idx el Hnot; simpl; [done |].
  simpl in Hnot. apply not_elem_of_cons in Hnot as [Hne Hnot].
  rewrite IH.
  - unfold updateElement; simpl. fold (eidOf el).
    by rewrite (proj2 (Nat.eqb_neq _ _) Hne).
  - by rewrite eidOf_updateElement.
Qed.

Lemma labelled_props_in els idx el i e :
  NoDup (List.map eidOf els) → els !! i = Some e → eidOf el = eidOf e →
  props (labelled els idx el) = setMark (markOf (idx + i)) (props el).
Proof.
  revert idx el i. induction els as [| e0 els IH]; intros idx el i Hnd Hi Heq; [done |].
  simpl in Hnd. apply NoDup_cons in Hnd as [Hnot Hnd]. destruct i as [| i]; simpl in *.
  - injection Hi as ->. rewrite labelled_props_notin.
    + unfold updateElement; simpl. fold (eidOf el).
      by rewrite Heq, Nat.eqb_refl, Nat.add_0_r.
    + rewrite eidOf_updateElement by done. by rewrite Heq.
  - rewrite (IH (S idx) _ i) by (rewrite ?eidOf_updateElement; done).
    replace (S idx + i)%nat with (idx + S i)%nat by lia. f_equal.
    unfold updateElement; simpl. fold (eidOf el).
    assert (eidOf el ≠ eidOf e0) as Hne.
    { rewrite Heq. intros Hee. apply Hnot. rewrite <- Hee.
      apply list_elem_of_fmap. exists e. split; [done |]. by eapply list_elem_of_lookup_2. }
    by rewrite (proj2 (Nat.eqb_neq _ _) Hne).
Qed.

Lemma markEach_run `{B : Browser} els idx m p :
  markEach els idx m p
  = (Normal (labelMap els idx m), withDocument (labelDoc els idx (documentElement p)) p).
Proof.
  revert idx m p. induction els as [| e els IH]; intros idx m p; simpl.
  - unfold ret. by rewrite withDocument_same.
  - unfold bind, setAttribute, modify. by rewrite IH.
Qed.

(** The registry after the loop. *)
Lemma labelMap_other els idx m k :
  k ∉ List.map markOf (seq idx (length els)) → labelMap els idx m !! k = m !! k.
Proof.
  revert idx m. induction els as [| e els IH]; intros idx m Hk; simpl in *; [done |].
  apply not_elem_of_cons in Hk as [Hne Hk].
  rewrite IH by done. by apply lookup_insert_ne.
Qed.

Lemma markOf_not_later idx n : markOf idx ∉ List.map markOf (seq (S idx) n).
Proof.
  intros Hin. apply list_elem_of_fmap in Hin as (j & Hj & Hin).
  apply markOf_inj in Hj. subst j.
  apply list_elem_of_In, in_seq in Hin. lia.
Qed.

Lemma labelMap_lookup els idx m i e :
  els !! i = Some e → labelMap els idx m !! markOf (idx + i) = Some e.
Proof.
  revert idx m i. induction els as [| e0 els IH]; intros idx m i Hi; [done |].
  destruct i as [| i]; simpl in *.
  - injection Hi as ->. rewrite Nat.add_0_r.
    rewrite labelMap_other by apply markOf_not_later. apply lookup_insert_eq.
  - replace (idx + S i)%nat with (S idx + i)%nat by lia. by apply IH.
Qed.

Lemma labelMap_size els idx (m : gmap string Element) :
  (∀ k, k ∈ List.map markOf (seq idx (length els)) → m !! k = None) →
  size (labelMap els idx m) = (size m + length els)%nat.
Proof.
  revert idx m. induction els as [| e els IH]; intros idx m Hfree; simpl; [lia |].
  rewrite IH.
  - rewrite map_size_insert_None; [lia |]. apply Hfree. simpl. by apply elem_of_cons; left.
  - intros k Hk. rewrite lookup_insert_ne.
    + apply Hfree. simpl. by apply elem_of_cons; right.
    + intros <-. by apply markOf_not_later in Hk.
Qed.

(** Appending the style element. *)
Lemma ids_Elem el kids :
  ids (Elem el kids) = eid el :: List.concat (List.map ids kids).
Proof.
  unfold ids at 1; simpl. f_equal. unfold eidOf at 1; simpl.
  induction kids as [| k ks IH]; simpl; [done |]. by rewrite List.map_app, IH.
Qed.

Lemma allProps_Elem el kids :
  allProps (Elem el kids) = el :: List.concat (List.map allProps kids).
Proof.
  unfold allProps at 1; simpl. f_equal.
  induction kids as [| k ks IH]; simpl; [done |]. by rewrite List.map_app, IH.
Qed.

Lemma appendChild_absent id c n : id ∉ ids n → appendChild id c n = n.
Proof.
  induction n as [s | el kids IH] using Node_ind'; [done |].
  rewrite ids_Elem. intros [Hne Hkids]%not_elem_of_cons. simpl.
  rewrite (proj2 (Nat.eqb_neq (eid el) id)) by done. f_equal.
  induction IH as [| k ks Hk _ IHks]; simpl in *; [done |].
  apply not_elem_of_app in Hkids as [Hk' Hks]. by rewrite Hk, IHks.
Qed.

Lemma appendChild_kids_absent id c kids :
  id ∉ List.concat (List.map ids kids) → List.map (appendChild id c) kids = kids.
Proof.
  induction kids as [| k ks IH]; simpl; [done |].
  intros [Hk Hks]%not_elem_of_app. by rewrite appendChild_absent, IH.
Qed.

Lemma appendChild_allProps id c n :
  NoDup (ids n) → id ∈ ids n →
  ∃ l1 l2, allProps n = l1 ++ l2 ∧ allProps (appendChild id c n) = l1 ++ allProps c ++ l2.
Proof.
  induction n as [s | el kids IH] using Node_ind'.
  - intros _ Hin. by apply elem_of_nil in Hin.
  - rewrite ids_Elem. intros [Hroot Hnd]%NoDup_cons Hin. simpl.
    destruct (Nat.eqb (eid el) id) eqn:Hid.
    + exists (allProps (Elem el kids)), []. rewrite !allProps_Elem, !app_nil_r.
      split; [done |]. simpl. f_equal.
      by rewrite List.map_app, List.concat_app; simpl; rewrite app_nil_r.
    + apply Nat.eqb_neq in Hid.
      apply elem_of_cons in Hin as [-> | Hin]; [done |].
      assert (∃ l1 l2, List.concat (List.map allProps kids) = l1 ++ l2
                ∧ List.concat (List.map allProps (List.map (appendChild id c) kids))
                  = l1 ++ allProps c ++ l2) as (l1 & l2 & H1 & H2).
      { clear Hroot Hid. induction IH as [| k ks Hk _ IHks]; simpl in *.
        - by apply elem_of_nil in Hin.
        - apply NoDup_app in Hnd as (Hndk & Hdisj & Hndks).
          destruct (decide (id ∈ ids k)) as [Hik | Hik].
          + destruct (Hk Hndk Hik) as (l1 & l2 & H1 & H2).
            exists l1, (l2 ++ List.concat (List.map allProps ks)).
            rewrite appendChild_kids_absent by (by apply Hdisj).
            rewrite H1, H2. by rewrite <- !app_assoc.
          + apply elem_of_app in Hin as [Hin | Hin]; [done |].
            destruct (IHks Hndks Hin) as (l1 & l2 & H1 & H2).
            exists (allProps k ++ l1), l2.
            rewrite appendChild_absent by done. rewrite H1, H2.
            by rewrite <- !app_assoc. }
      exists (el :: l1), l2. rewrite !allProps_Elem, H1, H2. done.
Qed.

Lemma ids_allProps d : ids d = List.map eid (allProps d).
Proof. unfold ids, allProps. by rewrite List.map_map. Qed.

Lemma freshId_fresh d : freshId d ∉ ids d.
Proof.
  unfold freshId. fold eidOf. change (List.map _ (elements d)) with (ids d).
  intros Hin. pose proof (proj1 (list_max_le (ids d) (list_max (ids d))) (le_n _)) as Hle.
  rewrite List.Forall_forall in Hle. apply list_elem_of_In, Hle in Hin. lia.
Qed.

Lemma visibleQualifying_props d :
  List.map props (visibleQualifying d) = List.filter visibleQualifyingP (allProps d).
Proof.
  unfold visibleQualifying, allProps, visibleQualifyingP.
  induction (elements d) as [| [e kids] l IH]; simpl; [done |].
  change (qualifies (e, kids)) with (qualifies (e, [])).
  destruct (qualifies (e, [])); simpl; [| done].
  change (isVisible (e, kids)) with (isVisible (e, [])).
  destruct (isVisible (e, [])); simpl; by rewrite IH.
Qed.

Lemma ensureMarkStyles_run `{B : Browser} p :
  is_Some (rootElement p) →
  ∃ p', ensureMarkStyles p = (Normal tt, p')
    ∧ is_Some (rootElement p')
    ∧ (uniqueIds (documentElement p) → uniqueIds (documentElement p')
        ∧ List.map eidOf (visibleQualifying (documentElement p'))
          = List.map eidOf (visibleQualifying (documentElement p)))
    ∧ ((∀ el, el ∈ elements (documentElement p) → getAttribute el MARK_ATTR = None) →
       uniqueIds (documentElement p) →
       ∀ el, el ∈ elements (documentElement p') → getAttribute el MARK_ATTR = None).
Proof.
  intros [r Hr]. unfold ensureMarkStyles.
  destruct (getElementById MARK_STYLE_ID (documentElement p)); [exists p; eauto |].
  set (d := documentElement p).
  assert (∃ parent,
            match head p with
            | Some parent => (Normal tt, withDocument
                  (appendChild (eid (props parent)) (newStyleElement d) d) p)
            | None =>
                match rootElement p with
                | Some parent => (Normal tt, withDocument
                    (appendChild (eid (props parent)) (newStyleElement d) d) p)
                | None => (Throw (TypeError
                    "Cannot read properties of null (reading 'appendChild')"), p)
                end
            end = (Normal tt, withDocument (appendChild parent (newStyleElement d) d) p))
    as (parent & ->).
  { destruct (head p); [eauto |]. rewrite Hr. eauto. }
  eexists. split; [done |]. simpl.
  set (c := newStyleElement d).
  split.
  { unfold rootElement in *. simpl. fold d in Hr.
    destruct d as [s | e kids]; [done |]. simpl. destruct (Nat.eqb _ _); eauto. }
  assert (uniqueIds d →
          allProps (appendChild parent c d) = allProps d
          ∨ ∃ l1 l2, allProps d = l1 ++ l2
              ∧ allProps (appendChild parent c d) = l1 ++ allProps c ++ l2) as Hshape.
  { intros Hu. destruct (decide (parent ∈ ids d)) as [Hin | Hout].
    - right. by apply appendChild_allProps.
    - left. by rewrite appendChild_absent. }
  split.
  - intros Hu.
    assert (∀ n, List.map eidOf (visibleQualifying n)
                 = List.map eid (List.filter visibleQualifyingP (allProps n))) as Hvq.
    { intros n. by rewrite <- visibleQualifying_props, List.map_map. }
    rewrite !Hvq. unfold uniqueIds. fold (ids (appendChild parent c d)).
    rewrite (ids_allProps (appendChild parent c d)).
    destruct (Hshape Hu) as [-> | (l1 & l2 & H1 & ->)].
    + split; [| done]. by rewrite <- ids_allProps.
    + rewrite H1. unfold uniqueIds in Hu. fold (ids d) in Hu.
      rewrite ids_allProps, H1 in Hu.
      pose proof (freshId_fresh d) as Hfresh. rewrite ids_allProps, H1 in Hfresh.
      split.
      * rewrite !List.map_app in *. simpl.
        apply NoDup_app in Hu as (Hu1 & Hdisj & Hu2).
        apply not_elem_of_app in Hfresh as [Hf1 Hf2].
        apply NoDup_app. split; [done |]. split.
        -- intros i Hi. apply not_elem_of_cons. split; [| by apply Hdisj].
           intros ->. done.
        -- by apply NoDup_cons.
      * by rewrite !List.filter_app.
  - intros Hnone Hu el Hin.
    assert (Forall (fun e => attributes e !! MARK_ATTR = None) (allProps d)) as Hall.
    { apply Forall_forall. intros e He. apply list_elem_of_fmap in He as (el0 & -> & Hel0).
      by apply Hnone. }
    assert (Forall (fun e => attributes e !! MARK_ATTR = None)
                   (allProps (appendChild parent c d))) as Hall'.
    { destruct (Hshape Hu) as [-> | (l1 & l2 & H1 & ->)]; [done |].
      rewrite H1 in Hall. apply Forall_app in Hall as [H1' H2'].
      apply Forall_app. split; [done |]. apply Forall_app. split; [| done].
      by repeat constructor. }
    rewrite Forall_forall in Hall'. apply Hall'.
    apply list_elem_of_fmap. eauto.
Qed.

Lemma rootElement_elements p : is_Some (rootElement p) ↔ elements (documentElement p) ≠ [].
Proof.
  unfold rootElement. destruct (documentElement p) as [s | e kids]; simpl.
  - split; [by intros [? ?] | done].
  - split; [done | eauto].
Qed.

Lemma getInteractiveElements_run `{B : Browser} (laws : BrowserLaws B) d :
  getInteractiveElements DocumentNode d = Normal (visibleQualifying d).
Proof.
  destruct (css_interactive B laws) as (f & Hf & Hfd).
  unfold getInteractiveElements, querySelectorAll. rewrite Hf. simpl.
  unfold visibleQualifying. do 2 f_equal. apply filter_ext. intros el. apply Hfd.
Qed.

Lemma lookup_map_Some {A C} (g : A → C) (l : list A) i c :
  List.map g l !! i = Some c → ∃ a, l !! i = Some a ∧ c = g a.
Proof.
  revert i. induction l as [| a l IH]; intros [| i]; simpl; try done.
  - intros [= <-]. eauto.
  - apply IH.
Qed.

(** C2.  On a page with a root element, one labelling pass over the
    document leaves the visible qualifying elements what they were, in the
    same order; the one at position [i] (counted from 0) carries the mark
    [String(i + 1)]; no other element of the document carries a mark,
    whatever marks the page had before; and the registry maps exactly the
    keys "1" .. "K", the key [String(i + 1)] to the element at position
    [i], where [K] is the number of visible qualifying elements.  The page
    it leaves meets the two conditions again, so all of this holds of
    every further pass: a pass replaces the assignment of the one before. *)
Theorem applySetOfMarks_dense_marks `{B : Browser} (laws : BrowserLaws B) (p : Page) :
  is_Some (rootElement p) →
  uniqueIds (documentElement p) →
  ∃ markMap p',
    applySetOfMarks DocumentNode p = (Normal markMap, p')
    ∧ let before := visibleQualifying (documentElement p) in
      let after := visibleQualifying (documentElement p') in
      let K := length before in
      List.map eidOf after = List.map eidOf before
      ∧ (∀ i el, after !! i = Some el → getAttribute el MARK_ATTR = Some (markOf i))
      ∧ (∀ el, el ∈ elements (documentElement p') →
               is_Some (getAttribute el MARK_ATTR) → el ∈ after)
      ∧ (∀ k, is_Some (markMap !! k) ↔ k ∈ List.map markOf (seq 0 K))
      ∧ (∀ i, eidOf <$> markMap !! markOf i = eidOf <$> before !! i)
      ∧ size markMap = K
      ∧ is_Some (rootElement p') ∧ uniqueIds (documentElement p').
Proof.
  intros Hroot Hu.
  set (d0 := documentElement p).
  set (els0 := List.filter hasMark (scope DocumentNode d0)).
  set (d1 := unmarkDoc els0 d0).
  pose proof (scope_unmarkDoc DocumentNode els0 d0) as Hel1. simpl in Hel1. fold d1 in Hel1.
  (* the page after the marks are cleared *)
  assert (uniqueIds d1) as Hu1.
  { unfold uniqueIds. rewrite Hel1, List.map_map.
    erewrite List.map_ext; [exact Hu |]. intros el. apply eidOf_unmarkAll. }
  assert (List.map eidOf (visibleQualifying d1) = List.map eidOf (visibleQualifying d0))
    as Hvq1.
  { unfold visibleQualifying. rewrite Hel1, visibleQualifying_map, List.map_map.
    - apply List.map_ext. intros el. apply eidOf_unmarkAll.
    - intros el. apply sameButMark_unmarkAll. }
  assert (∀ el, el ∈ elements d1 → getAttribute el MARK_ATTR = None) as Hnone1.
  { intros el Hin. rewrite Hel1 in Hin. apply list_elem_of_fmap in Hin as (el0 & -> & Hin).
    by apply unmarkAll_filtered. }
  (* the page after the style element is there *)
  destruct (ensureMarkStyles_run (withDocument d1 p))
    as (p2 & Hrun2 & Hroot2 & Hkeep & Hnone2).
  { apply rootElement_elements. simpl. fold d1. rewrite Hel1.
    apply rootElement_elements in Hroot. fold d0 in Hroot.
    by destruct (elements d0). }
  simpl in Hkeep, Hnone2. destruct (Hkeep Hu1) as [Hu2 Hvq2].
  specialize (Hnone2 Hnone1 Hu1).
  set (d2 := documentElement p2) in *.
  set (es := visibleQualifying d2).
  (* the labelling loop *)
  exists (labelMap es 0 ∅), (withDocument (labelDoc es 0 d2) p2).
  split.
  { unfold applySetOfMarks, bind. rewrite (clearSetOfMarks_run laws). fold d0 els0 d1.
    rewrite Hrun2. unfold liftRead. rewrite (getInteractiveElements_run laws).
    apply markEach_run. }
  simpl.
  assert (visibleQualifying (labelDoc es 0 d2) = List.map (labelled es 0) es) as Hafter.
  { unfold visibleQualifying at 1. rewrite elements_labelDoc, visibleQualifying_map; [done |].
    intros el. apply sameButMark_labelled. }
  assert (NoDup (List.map eidOf es)) as Hndes.
  { unfold es, visibleQualifying. by do 2 apply NoDup_map_filter. }
  assert (List.map eidOf es = List.map eidOf (visibleQualifying d0)) as Hes
    by (unfold es; congruence).
  assert (length es = length (visibleQualifying d0)) as Hlen
    by (by rewrite <- (length_map eidOf es), Hes, length_map).
  rewrite Hafter. repeat split.
  - rewrite List.map_map, <- Hes. apply List.map_ext.
    intros el. apply eidOf_same, sameButMark_labelled.
  - intros i el Hi. apply lookup_map_Some in Hi as (e & He & ->).
    unfold getAttribute. rewrite (labelled_props_in es 0 e i e Hndes He eq_refl).
    simpl. apply lookup_insert_eq.
  - intros el Hin Hmark. rewrite elements_labelDoc in Hin.
    apply list_elem_of_fmap in Hin as (el2 & -> & Hin).
    apply list_elem_of_fmap. exists el2. split; [done |].
    destruct (decide (eidOf el2 ∈ List.map eidOf es)) as [Hlisted | Hout].
    + apply list_elem_of_fmap in Hlisted as (e & Heq & He).
      assert (e ∈ elements d2) as Hein.
      { unfold es, visibleQualifying in He.
        apply list_elem_of_In, filter_In in He as [He _]. apply filter_In in He as [He _].
        by apply list_elem_of_In. }
      by rewrite (NoDup_map_eq eidOf (elements d2) el2 e Hu2 Hin Hein Heq).
    + unfold getAttribute in Hmark. rewrite (labelled_props_notin es 0 el2 Hout) in Hmark.
      fold (getAttribute el2 MARK_ATTR) in Hmark. rewrite (Hnone2 el2 Hin) in Hmark.
      by destruct Hmark.
  - intros Hk. destruct (decide (k ∈ List.map markOf (seq 0 (length es)))) as [Hin | Hout].
    + by rewrite <- Hlen.
    + rewrite labelMap_other in Hk by done. rewrite lookup_empty in Hk. by destruct Hk.
  - rewrite <- Hlen. intros Hin. apply list_elem_of_fmap in Hin as (i & -> & Hi).
    apply list_elem_of_In, in_seq in Hi.
    destruct (lookup_lt_is_Some_2 es i) as [e He]; [lia |].
    rewrite (labelMap_lookup es 0 ∅ i e He). eauto.
  - intros i. rewrite <- !list_lookup_fmap.
    change (eidOf <$> visibleQualifying d0) with (List.map eidOf (visibleQualifying d0)).
    rewrite <- Hes. change (List.map eidOf es) with (eidOf <$> es).
    rewrite list_lookup_fmap. destruct (es !! i) as [e |] eqn:He.
    + by rewrite (labelMap_lookup es 0 ∅ i e He).
    + rewrite labelMap_other, lookup_empty; [done |].
      intros Hin. apply list_elem_of_fmap in Hin as (j & Hj & Hin).
      apply markOf_inj in Hj. subst j. apply list_elem_of_In, in_seq in Hin.
      apply lookup_ge_None in He. lia.
  - rewrite labelMap_size, map_size_empty; [lia |]. intros k _. apply lookup_empty.
  - apply rootElement_elements. simpl. rewrite elements_labelDoc.
    apply rootElement_elements in Hroot2. fold d2 in Hroot2. by destruct (elements d2).
  - unfold uniqueIds. rewrite elements_labelDoc, List.map_map.
    erewrite List.map_ext; [exact Hu2 |].
    intros el. apply eidOf_same, sameButMark_labelled.
Qed.

(** A run of C2 on the example page: the link, the input and the select
    are labelled "1", "2", "3"; the hidden button is not, and the stale
    mark of the paragraph is gone. *)
Lemma applySetOfMarks_dense_marks_witness :
  ∃ markMap p',
    @applySetOfMarks Mini.browser DocumentNode Examples.formPage = (Normal markMap, p')
    ∧ List.map eidOf (visibleQualifying (documentElement p')) = [5; 7; 8]%nat
    ∧ (∀ i el, visibleQualifying (documentElement p') !! i = Some el →
               getAttribute el MARK_ATTR = Some (markOf i))
    ∧ (∀ el, el ∈ elements (documentElement p') →
             is_Some (getAttribute el MARK_ATTR) →
             el ∈ visibleQualifying (documentElement p'))
    ∧ size markMap = 3%nat.
Proof.
  destruct (@applySetOfMarks_dense_marks Mini.browser Mini_laws Examples.formPage)
    as (markMap & p' & Hrun & Hids & Hmarks & Hstale & _ & _ & Hsize & _).
  - by eexists.
  - apply (bool_decide_unpack _). by vm_compute.
  - exists markMap, p'. split; [exact Hrun |]. split; [exact Hids |].
    split; [exact Hmarks |]. split; [exact Hstale | exact Hsize].
Defined.

(** The same run, computed: the marks of all elements after the pass (the
    style element, identity 9, was appended to the head), and the target
    [{ mark: "2" }] resolving to the input. *)
Example applySetOfMarks_on_formPage :
  let p' := snd (@applySetOfMarks Mini.browser DocumentNode Examples.formPage) in
  List.map (fun el => (eidOf el, getAttribute el MARK_ATTR)) (elements (documentElement p'))
  = [(1, None); (2, None); (9, None); (3, None); (4, None); (5, Some "1");
     (6, None); (7, Some "2"); (8, Some "3")]%nat
  ∧ eidOf <$> (match @resolveTarget Mini.browser (Examples.byMark "2") (documentElement p') with
               | Normal el => Some el
               | Throw _ => None
               end) = Some 7%nat
  ∧ @resolveTarget Mini.browser (Examples.byMark "99") (documentElement p')
    = Throw (Error "No element with mark 99").
Proof. by vm_compute. Qed.

(** [FILL_FORM] with one valid and one invalid target: two entries. *)
Example fillForm_valid_and_invalid :
  List.map (fun r => (r_ok r, r_error r))
    (match fst (@fillForm Mini.browser
                  [{| f_target := Examples.bySelector "input"; f_value := VStr "Alice";
                      f_type := VUndef |};
                   {| f_target := Examples.byMark "99"; f_value := VStr "x";
                      f_type := VUndef |}] Examples.formPage) with
     | Normal results => results
     | Throw _ => []
     end)
  = [(true, None); (false, Some "No element with mark 99")].
Proof. by vm_compute. Qed.

(** The resolver on the labelled example page: a mark wins over a selector,
    a selector over an XPath expression, and an empty target is refused. *)
Example resolveTarget_on_formPage :
  let d := documentElement (snd (@applySetOfMarks Mini.browser DocumentNode Examples.formPage)) in
  let resolved t := match @resolveTarget Mini.browser (Some t) d with
                    | Normal el => inl (eidOf el)
                    | Throw e => inr e
                    end in
  resolved {| mark := VNum 3; selector := VStr "input"; xpath := VStr "/*" |} = inl 8%nat
  ∧ resolved {| mark := VUndef; selector := VStr "input"; xpath := VStr "/*" |} = inl 7%nat
  ∧ resolved {| mark := VUndef; selector := VUndef; xpath := VStr "/*" |} = inl 1%nat
  ∧ resolved {| mark := VUndef; selector := VStr "dialog"; xpath := VStr "/*" |}
    = inr (Error ("No element matching " +:+ dq +:+ "dialog" +:+ dq))
  ∧ resolved {| mark := VUndef; selector := VUndef; xpath := VUndef |}
    = inr (Error "target must have mark, selector, or xpath").
Proof. by vm_compute. Qed.

(* ------------------------------------------------------------------------- *)
(** ** Further properties *)

(** *** The background worker *)

Lemma LOG_LEVELS_range name n : Background.LOG_LEVELS !! name = Some n → 0 ≤ n ≤ 3.
Proof.
  unfold Background.LOG_LEVELS. simpl.
  repeat (rewrite lookup_insert; case_decide; [intros [= <-]; lia |]).
  by rewrite lookup_empty.
Qed.

Lemma log_keeps_level level w :
  Background.currentLogLevel (Background.log level w) = Background.currentLogLevel w
  ∧ Background.calls (Background.log level w) = Background.calls w.
Proof.
  unfold Background.log. destruct (Background.LOG_LEVELS !! level); [| done].
  by destruct (_ >=? _).
Qed.

Lemma routeSetLogLevel_levelOk level w :
  Background.levelOk w → Background.levelOk (snd (Background.routeSetLogLevel level w)).
Proof.
  unfold Background.levelOk, Background.routeSetLogLevel, Background.handleSetLogLevel.
  intros Hw. pose proof (log_keeps_level "DEBUG" w) as [Hd _].
  destruct level as [| | b | n | s]; simpl;
    rewrite ?(proj1 (log_keeps_level "ERROR" _)), ?Hd; try done.
  destruct (Background.LOG_LEVELS !! Background.toUpperCase s) as [n |] eqn:Hn; simpl.
  - by apply LOG_LEVELS_range in Hn.
  - by rewrite Hd.
Qed.

(** X1.  [SET_LOG_LEVEL] succeeds exactly for a string that, in upper case,
    is one of DEBUG, INFO, WARN, ERROR, and then the threshold is that
    level's rank; for anything else the reply is a failure with an error
    message and the threshold stays.  The threshold remains one of the four
    ranks, and no [chrome] call is made. *)
Theorem setLogLevel_accepts_level_names (level : Value) (w : Background.Worker) :
  Background.levelOk w →
  let r := fst (Background.routeSetLogLevel level w) in
  let w' := snd (Background.routeSetLogLevel level w) in
  Background.levelOk w'
  ∧ Background.calls w' = Background.calls w
  ∧ (Background.b_ok r = true
     ↔ ∃ s, level = VStr s
            ∧ Background.toUpperCase s ∈ ["DEBUG"; "INFO"; "WARN"; "ERROR"])
  ∧ (Background.b_ok r = true →
     ∃ s, level = VStr s
          ∧ Background.LOG_LEVELS !! Background.toUpperCase s
            = Some (Background.currentLogLevel w'))
  ∧ (Background.b_ok r = false →
     Background.currentLogLevel w' = Background.currentLogLevel w
     ∧ ∃ msg, Background.b_error r = Some msg).
Proof.
  intros Hw r w'. split; [by apply routeSetLogLevel_levelOk |].
  subst r w'. unfold Background.routeSetLogLevel, Background.handleSetLogLevel.
  pose proof (log_keeps_level "DEBUG" w) as [Hd Hc].
  assert (∀ s, Background.toUpperCase s ∈ ["DEBUG"; "INFO"; "WARN"; "ERROR"]
               ↔ is_Some (Background.LOG_LEVELS !! Background.toUpperCase s)) as Hnames.
  { intros s. generalize (Background.toUpperCase s). intros name.
    unfold Background.LOG_LEVELS. simpl. split.
    - intros Hin. repeat (apply elem_of_cons in Hin as [-> | Hin]; [by eexists |]).
      by apply elem_of_nil in Hin.
    - repeat (rewrite lookup_insert; case_decide;
                [subst; intros _; repeat (apply elem_of_cons; first [by left | right]) |]).
      rewrite lookup_empty. by intros [? ?]. }
  destruct level as [| | b | n | s]; simpl;
    rewrite ?(proj1 (log_keeps_level "ERROR" _)), ?(proj2 (log_keeps_level "ERROR" _)),
            ?Hd, ?Hc.
  1-4: (split; [done |]; split;
         [split; [done | by intros (s & ? & _)] | split; [done | eauto]]).
  destruct (Background.LOG_LEVELS !! Background.toUpperCase s) as [n |] eqn:Hn; simpl.
  - split; [done |]. split; [| split; [eauto | done]].
    split; [| done]. intros _. exists s. split; [done |]. apply Hnames. by rewrite Hn.
  - rewrite Hd, Hc. split; [done |]. split; [| split; [done | eauto]].
    split; [done |]. intros (s' & [= <-] & Hin). apply Hnames in Hin.
    rewrite Hn in Hin. by destruct Hin.
Qed.

(** A run of X1: "warn" in lower case sets the threshold to 2. *)
Lemma setLogLevel_accepts_level_names_witness :
  Background.b_ok (fst (Background.routeSetLogLevel (VStr "warn") Background.start)) = true
  ∧ Background.currentLogLevel
      (snd (Background.routeSetLogLevel (VStr "warn") Background.start)) = 2.
Proof.
  pose proof (setLogLevel_accepts_level_names (VStr "warn") Background.start)
    as (_ & _ & Hok & _); [unfold Background.levelOk; simpl; lia |].
  split; [| reflexivity].
  apply Hok. exists "warn". split; [reflexivity |].
  apply elem_of_cons; right. apply elem_of_cons; right. apply elem_of_cons. by left.
Defined.

Lemma afterLevels_levelOk levels w :
  Background.levelOk w → Background.levelOk (Background.afterLevels levels w).
Proof.
  revert w. induction levels as [| l levels IH]; intros w Hw; [done |].
  simpl. apply IH. by apply routeSetLogLevel_levelOk.
Qed.

(** X2.  Whatever [SET_LOG_LEVEL] messages the worker has received since
    it started, an error line is printed: the threshold never rises above
    ERROR.  A line of a level that the table does not have is never
    printed. *)
Theorem log_error_never_silenced (levels : list Value) (level : string) :
  let w := Background.afterLevels levels Background.start in
  Background.console (Background.log "ERROR" w)
  = Background.console w
    ++ [{| Background.c_method := "error"; Background.c_level := "ERROR" |}]
  ∧ (Background.LOG_LEVELS !! level = None → Background.log level w = w).
Proof.
  intros w. split.
  - assert (Background.levelOk w) as Hw.
    { apply afterLevels_levelOk. unfold Background.levelOk. simpl. lia. }
    unfold Background.log, Background.levelOk in *.
    change (Background.LOG_LEVELS !! "ERROR") with (Some 3). cbv beta iota.
    assert ((3 >=? Background.currentLogLevel w) = true) as ->; [| done].
    rewrite Z.geb_leb. apply Z.leb_le. lia.
  - intros Hnone. unfold Background.log. by rewrite Hnone.
Qed.

Ltac settle Hlog :=
  repeat split; intros; rewrite ?Hlog; simpl in *; rewrite ?Hlog; try done; eauto.

(** X3.  [NAVIGATE].  Without a (truthy) url the reply is the failure "url
    is required" and no [chrome] call is made.  With [newTab] the only call
    is [tabs.create], whatever [tabId] says.  Otherwise a given [tabId] is
    used without asking for the active tab; a [tabId] that is given but
    falsy (0, for one) is answered "No target tab" without any call; and
    the active tab is asked for only when [tabId] is absent or null.  A
    successful reply carries the tab that was created or updated. *)
Theorem handleNavigate_calls `{C : Background.Chrome}
    (m : Background.Navigate) (w : Background.Worker) :
  let r := fst (Background.handleNavigate m w) in
  let w' := snd (Background.handleNavigate m w) in
  let newTab := truthy (Background.n_newTab m) in
  (truthy (Background.n_url m) = false →
     r = Background.failure "url is required" ∧ Background.calls w' = Background.calls w)
  ∧ (truthy (Background.n_url m) = true → newTab = true →
     Background.calls w' = Background.calls w ++ [Background.TabsCreate (Background.n_url m)]
     ∧ ∀ id, Background.createdTabId (Background.n_url m) = Normal id →
             Background.b_ok r = true ∧ Background.b_tabId r = Some id)
  ∧ (truthy (Background.n_url m) = true → newTab = false →
     Background.isNullish (Background.n_tabId m) = false →
     if truthy (Background.n_tabId m)
     then Background.calls w'
          = Background.calls w
            ++ [Background.TabsUpdate (Background.n_tabId m) (Background.n_url m)]
          ∧ (Background.b_ok r = true → Background.b_tabId r = Some (Background.n_tabId m))
     else r = Background.failure "No target tab"
          ∧ Background.calls w' = Background.calls w)
  ∧ (truthy (Background.n_url m) = true → newTab = false →
     Background.isNullish (Background.n_tabId m) = true →
     ∃ rest, Background.calls w' = Background.calls w ++ Background.TabsQueryActive :: rest
       ∧ (rest = [] ∨ ∃ id, Background.activeTabId = Normal id ∧ truthy id = true
                            ∧ rest = [Background.TabsUpdate id (Background.n_url m)]))
  ∧ (Background.b_ok r = false → ∃ msg, Background.b_error r = Some msg).
Proof.
  intros r w' newTab. subst r w' newTab.
  unfold Background.handleNavigate, Background.navigate.
  assert (∀ level x, Background.calls (Background.log level x) = Background.calls x) as Hlog
    by (intros; apply log_keeps_level).
  assert (truthy match Background.n_newTab m with
                 | VUndef => VBool false
                 | v => v
                 end = truthy (Background.n_newTab m)) as ->
    by (by destruct (Background.n_newTab m)).
  destruct (truthy (Background.n_url m)) eqn:Hurl; simpl; [| settle Hlog].
  destruct (truthy (Background.n_newTab m)) eqn:Hnew; simpl.
  { destruct (Background.createdTabId _) as [id | e] eqn:Hc; simpl; settle Hlog;
      congruence. }
  destruct (Background.isNullish (Background.n_tabId m)) eqn:Hnull; simpl.
  - destruct Background.activeTabId as [id | e] eqn:Hact; simpl.
    + destruct (truthy id) eqn:Hid; simpl.
      * destruct (Background.tabsUpdate id _) as [[] | e]; simpl; settle Hlog;
          try (exists [Background.TabsUpdate id (Background.n_url m)];
               rewrite <- app_assoc; (split; [done |]); right; by eauto).
      * settle Hlog; try (exists []; split; [done | by left]).
    + settle Hlog; try (exists []; split; [done | by left]).
  - destruct (truthy (Background.n_tabId m)) eqn:Hid; simpl.
    + destruct (Background.tabsUpdate _ _) as [[] | e]; simpl; settle Hlog.
    + settle Hlog.
Qed.

(** X4.  [DOWNLOAD_FILE].  Without a (truthy) url the reply is the failure
    "url is required" and nothing is downloaded.  With one, exactly one
    [downloads.download] call is made; it is asked to 'uniquify' when the
    message has no [conflictAction] and not to prompt when [saveAs] is
    absent or null, and the reply carries the download's id. *)
Theorem handleDownload_calls `{C : Background.Chrome}
    (m : Background.Download) (w : Background.Worker) :
  let r := fst (Background.handleDownload m w) in
  let w' := snd (Background.handleDownload m w) in
  (truthy (Background.dl_url m) = false →
     r = Background.failure "url is required" ∧ Background.calls w' = Background.calls w)
  ∧ (truthy (Background.dl_url m) = true →
     ∃ conflictAction saveAs,
       Background.calls w'
       = Background.calls w
         ++ [Background.DownloadsDownload (Background.dl_url m) (Background.dl_filename m)
               conflictAction saveAs]
       ∧ (Background.dl_conflictAction m = VUndef → conflictAction = VStr "uniquify")
       ∧ (Background.dl_conflictAction m ≠ VUndef →
          conflictAction = Background.dl_conflictAction m)
       ∧ (Background.isNullish (Background.dl_saveAs m) = true → saveAs = VBool false)
       ∧ (Background.isNullish (Background.dl_saveAs m) = false →
          saveAs = Background.dl_saveAs m)
       ∧ (∀ id, Background.downloadsDownload (Background.dl_url m)
                  (Background.dl_filename m) conflictAction saveAs = Normal id →
                Background.b_ok r = true ∧ Background.b_downloadId r = Some id)
       ∧ (Background.b_ok r = false → ∃ msg, Background.b_error r = Some msg)).
Proof.
  intros r w'. subst r w'. unfold Background.handleDownload, Background.download.
  assert (∀ level x, Background.calls (Background.log level x) = Background.calls x) as Hlog
    by (intros; apply log_keeps_level).
  destruct (truthy (Background.dl_url m)) eqn:Hurl; simpl.
  2: { split; [| done]. intros _. by rewrite Hlog. }
  split; [done |]. intros _.
  eexists _, _. split; [| split; [| split; [| split; [| split; [| split]]]]].
  - destruct (Background.downloadsDownload _ _ _ _); simpl; by rewrite Hlog.
  - by intros ->.
  - intros Hne. by destruct (Background.dl_conflictAction m).
  - by intros ->.
  - by intros ->.
  - intros id ->. done.
  - destruct (Background.downloadsDownload _ _ _ _); simpl; [done | eauto].
Qed.

(** *** Descriptors and snapshots *)

Lemma orElse_not_empty a b : b ≠ Some EmptyString → orElse a b ≠ Some EmptyString.
Proof.
  intros Hb. destruct a as [s |]; simpl; [| done].
  destruct (String.eqb s "") eqn:E; [done |].
  apply String.eqb_neq in E. congruence.
Qed.

Lemma length_substring_le n s : (String.length (substring 0 n s) ≤ n)%nat.
Proof.
  revert s. induction n as [| n IH]; intros [| c s]; simpl; try lia.
  specialize (IH s). lia.
Qed.

(** X5.  In a descriptor the id, the role, the label and the mark are
    null or a non-empty string, never the empty string.  When no labelling
    attribute and no label element gives the label, it is the element's
    trimmed text cut to 80 characters, so it has at most 80. *)
Theorem describeElement_normalises (el : Element) :
  let d := describeElement el in
  d_id d ≠ Some EmptyString ∧ d_role d ≠ Some EmptyString
  ∧ d_label d ≠ Some EmptyString ∧ d_mark d ≠ Some EmptyString
  ∧ (falsy (getAttribute el "aria-label") → falsy (getAttribute el "aria-labelledby") →
     falsy (getAttribute el "title") → falsy (getAttribute el "placeholder") →
     falsy (firstLabelText el) →
     ∀ s, d_label d = Some s →
          s = slice0 80 (trim (textContent (nodeOf el))) ∧ (String.length s ≤ 80)%nat).
Proof.
  intros d. subst d. unfold describeElement. cbn [d_id d_role d_label d_mark].
  split; [by apply orElse_not_empty |].
  split; [by do 2 apply orElse_not_empty |].
  split; [by do 6 apply orElse_not_empty |].
  split; [by apply orElse_not_empty |].
  intros H1 H2 H3 H4 H5 s. rewrite !orElse_falsy by done.
  unfold ownText, orElse. destruct (String.eqb _ _); [done |].
  intros [= <-]. split; [done |]. apply length_substring_le.
Qed.







(** *** The accessibility tree, further *)

Lemma omap_Forall {A C} (f : A → option C) (P : C → Prop) l :
  Forall (fun a => ∀ c, f a = Some c → P c) l → Forall P (omap f l).
Proof.
  induction 1 as [| a l Ha _ IH]; simpl; [done |].
  destruct (f a) as [c |] eqn:E; [constructor; auto | done].
Qed.

Lemma list_max_bound (l : list nat) n : Forall (fun k => (k ≤ n)%nat) l → (list_max l ≤ n)%nat.
Proof. intros H. by apply list_max_le. Qed.

(** X7.  A tree that [buildA11yNode] returns for an element at depth
    [depth] has at most [maxDepth - depth + 1] levels, and each of its nodes
    has a name, a child or an interactive tag: a leaf is never anonymous
    and non-interactive.  Beyond the depth bound there is no tree at all. *)
Theorem buildA11yNode_bounded_and_pruned (n : Node) (depth maxDepth : Z) :
  (∀ node, buildA11yNode n depth maxDepth = Some node →
           Retainable node ∧ Z.of_nat (a11yHeight node) ≤ maxDepth - depth + 1)
  ∧ (maxDepth < depth → buildA11yNode n depth maxDepth = None).
Proof.
  split; [| apply buildA11yNode_too_deep].
  revert depth. induction n as [s | e kids IH] using Node_ind'; intros depth node; [done |].
  simpl. destruct (depth >? maxDepth) eqn:Hd; [done |].
  assert (depth ≤ maxDepth) as Hle by (rewrite Z.gtb_ltb in Hd; by apply Z.ltb_ge).
  destruct (bool_decide _); [done |]. destruct (_ && _); [done |].
  set (children := omap (fun child => buildA11yNode child (depth + 1) maxDepth) kids).
  assert (Forall (fun c => Retainable c
                           ∧ Z.of_nat (a11yHeight c) ≤ maxDepth - (depth + 1) + 1) children)
    as Hkids.
  { apply omap_Forall. eapply Forall_impl; [exact IH |]. intros k Hk c. apply Hk. }
  destruct (bool_decide (a11yName (e, kids) = None)) eqn:Hname;
    destruct (length children =? 0)%nat eqn:Hlen;
    destruct (bool_decide (tagName e ∈ INTERACTIVE_TAGS)) eqn:Htag; simpl;
    intros [= <-]; (split;
      [ constructor;
        [ first [ left; by apply bool_decide_eq_false in Hname
                | right; left; intros Hnil; rewrite Hnil in Hlen; done
                | right; right; by apply bool_decide_eq_true in Htag ]
        | eapply Forall_impl; [exact Hkids |]; by intros c [Hc _] ]
      | simpl;
        assert (list_max (List.map a11yHeight children) ≤ Z.to_nat (maxDepth - depth))%nat
          as Hmax;
        [ apply list_max_bound, Forall_map; eapply Forall_impl; [exact Hkids |];
          intros c [_ Hc]; simpl; lia
        | lia ] ]).
Qed.
(** *** Marks and the style element, further *)

Lemma unmark_unmark e : unmark (unmark e) = unmark e.
Proof. unfold unmark, withAttributes; simpl. f_equal. apply delete_delete_eq. Qed.

Lemma props_unmarkAll els el :
  props (unmarkAll els el) = props el ∨ props (unmarkAll els el) = unmark (props el).
Proof.
  revert el. induction els as [| e els IH]; intros el; simpl; [by left |].
  destruct (IH (updateElement (eidOf e) unmark el)) as [-> | ->];
    unfold updateElement; simpl; destruct (Nat.eqb _ _); auto.
  right. apply unmark_unmark.
Qed.

Lemma Forall2_map_r {A C} (R : A → C → Prop) (g : A → C) l :
  (∀ a, R a (g a)) → Forall2 R l (List.map g l).
Proof. intros H. induction l; simpl; constructor; auto. Qed.

Lemma filter_none {A} (q : A → bool) l : (∀ a, a ∈ l → q a = false) → List.filter q l = [].
Proof.
  induction l as [| a l IH]; intros H; simpl; [done |].
  rewrite (H a) by (by apply elem_of_cons; left).
  apply IH. intros b Hb. apply H. by apply elem_of_cons; right.
Qed.

Lemma textContent_updateProps id f n : textContent (updateProps id f n) = textContent n.
Proof.
  induction n as [s | e kids IH] using Node_ind'; simpl; [done |].
  induction IH as [| k ks Hk _ IHks]; simpl; [done |]. by rewrite Hk, IHks.
Qed.

Lemma textContent_unmarkDoc els d : textContent (unmarkDoc els d) = textContent d.
Proof.
  revert d. induction els as [| e els IH]; intros d; simpl; [done |].
  by rewrite IH, textContent_updateProps.
Qed.

(** X8.  [clearSetOfMarks] changes nothing but the mark attribute: each
    element keeps its properties or loses just that attribute, the text of
    the page, the event log, the scroll offsets and the focus stay; and
    clearing a second time changes nothing at all. *)
Theorem clearSetOfMarks_only_marks `{B : Browser} (laws : BrowserLaws B)
    (root : ParentNode) (p : Page) :
  ∃ p', clearSetOfMarks root p = (Normal tt, p')
    ∧ clearSetOfMarks root p' = (Normal tt, p')
    ∧ Forall2 (fun el el' => props el' = props el ∨ props el' = unmark (props el))
        (elements (documentElement p)) (elements (documentElement p'))
    ∧ textContent (documentElement p') = textContent (documentElement p)
    ∧ events p' = events p ∧ scroll p' = scroll p
    ∧ activeElement p' = activeElement p.
Proof.
  eexists. split; [apply (clearSetOfMarks_run laws) |].
  set (d := documentElement p). set (els := List.filter hasMark (scope root d)).
  split; [| split; [| split; [| done]]].
  - rewrite (clearSetOfMarks_run laws). simpl.
    rewrite filter_none; [done |].
    intros el Hin. rewrite scope_unmarkDoc in Hin.
    apply list_elem_of_fmap in Hin as (el0 & -> & Hin).
    pose proof (unmarkAll_filtered (scope root d) el0 Hin) as Hn.
    apply bool_decide_eq_false. fold els in Hn. rewrite Hn. by intros [? ?].
  - cbn [documentElement withDocument]. fold d els.
    change (elements (unmarkDoc els d)) with (scope DocumentNode (unmarkDoc els d)).
    rewrite scope_unmarkDoc. apply Forall2_map_r. intros el. apply props_unmarkAll.
  - simpl. apply textContent_unmarkDoc.
Qed.

(** A run of X8 on the example page. *)
Lemma clearSetOfMarks_only_marks_witness :
  ∃ p', @clearSetOfMarks Mini.browser DocumentNode Examples.formPage = (Normal tt, p')
    ∧ @clearSetOfMarks Mini.browser DocumentNode p' = (Normal tt, p')
    ∧ textContent (documentElement p') = "Sign inHelpHidden".
Proof.
  destruct (@clearSetOfMarks_only_marks Mini.browser Mini_laws DocumentNode Examples.formPage)
    as (p' & Hrun & Hagain & _ & Htext & _).
  exists p'. split; [exact Hrun |]. split; [exact Hagain | exact Htext].
Defined.

Lemma elements_appendChild_child id c n x :
  id ∈ ids n → x ∈ elements c → x ∈ elements (appendChild id c n).
Proof.
  intros Hid Hx. induction n as [s | el kids IH] using Node_ind'.
  - by apply elem_of_nil in Hid.
  - rewrite ids_Elem in Hid. simpl. destruct (Nat.eqb (eid el) id) eqn:E.
    + simpl. apply elem_of_cons; right.
      apply list_elem_of_In, in_flat_map. exists c. split.
      * apply in_or_app. right. by left.
      * by apply list_elem_of_In.
    + apply Nat.eqb_neq in E. apply elem_of_cons in Hid as [-> | Hid]; [done |].
      simpl. apply elem_of_cons; right.
      induction IH as [| k ks Hk _ IHks]; simpl in *; [by apply elem_of_nil in Hid |].
      apply elem_of_app in Hid as [Hid | Hid]; apply elem_of_app; auto.
Qed.

Lemma children_elements el c : c ∈ children el → c ∈ elements (nodeOf el).
Proof.
  destruct el as [e kids]. unfold children, nodeOf; simpl. intros Hc.
  apply elem_of_cons; right.
  apply list_elem_of_In, in_flat_map in Hc as (k & Hk & Hc).
  apply list_elem_of_In, in_flat_map. exists k. split; [done |].
  destruct k as [s | e' ks]; [done |]. destruct Hc as [<- | []]. by left.
Qed.

Lemma head_in_document p h : head p = Some h → eidOf h ∈ ids (documentElement p).
Proof.
  unfold head, childWithTag. destruct (documentElement p) as [s | e kids]; [done |].
  destruct (String.eqb _ _); [| done]. intros Hfind.
  apply find_some in Hfind as [Hin _].
  apply list_elem_of_fmap. exists h. split; [done |].
  apply (children_elements (e, kids)). by apply list_elem_of_In.
Qed.

Lemma rootElement_in_document p r :
  rootElement p = Some r → eidOf r ∈ ids (documentElement p).
Proof.
  unfold rootElement. destruct (documentElement p) as [s | e kids]; [done |].
  intros [= <-]. rewrite ids_Elem. by apply elem_of_cons; left.
Qed.

Lemma find_is_Some {A} (q : A → bool) l x : x ∈ l → q x = true → is_Some (List.find q l).
Proof.
  intros Hin Hq. induction l as [| a l IH]; [by apply elem_of_nil in Hin |].
  simpl. destruct (q a) eqn:E; [eauto |].
  apply elem_of_cons in Hin as [-> | Hin]; [congruence | auto].
Qed.

(** X9.  On a page with a root element [ensureMarkStyles] succeeds and
    leaves a style element with the id of the overlay styles in the
    document; called again it changes nothing, and it changes nothing in
    the first place when such an element is there: the styles are injected
    once. *)
Theorem ensureMarkStyles_injects_once (p : Page) :
  is_Some (rootElement p) →
  ∃ p1, ensureMarkStyles p = (Normal tt, p1)
    ∧ is_Some (getElementById MARK_STYLE_ID (documentElement p1))
    ∧ ensureMarkStyles p1 = (Normal tt, p1)
    ∧ (is_Some (getElementById MARK_STYLE_ID (documentElement p)) → p1 = p).
Proof.
  intros [r Hr].
  assert (∀ q, is_Some (getElementById MARK_STYLE_ID (documentElement q)) →
               ensureMarkStyles q = (Normal tt, q)) as Hnoop.
  { intros q [x Hx]. unfold ensureMarkStyles. by rewrite Hx. }
  destruct (getElementById MARK_STYLE_ID (documentElement p)) as [x |] eqn:Hstyle.
  { assert (ensureMarkStyles p = (Normal tt, p)) as Hp
      by (apply Hnoop; exists x; exact Hstyle).
    exists p. repeat split; eauto. }
  set (d := documentElement p).
  assert (∃ parent, parent ∈ ids d
            ∧ ensureMarkStyles p
              = (Normal tt, withDocument (appendChild parent (newStyleElement d) d) p))
    as (parent & Hparent & Hrun).
  { unfold ensureMarkStyles. rewrite Hstyle. fold d.
    destruct (head p) as [h |] eqn:Hh.
    - exists (eidOf h). split; [by apply head_in_document | done].
    - rewrite Hr. exists (eidOf r). split; [by apply rootElement_in_document | done]. }
  eexists. split; [exact Hrun |].
  assert (is_Some (getElementById MARK_STYLE_ID
                     (appendChild parent (newStyleElement d) d))) as Hthere.
  { unfold getElementById. eapply find_is_Some.
    - eapply elements_appendChild_child; [exact Hparent |].
      unfold newStyleElement. simpl. apply elem_of_cons. by left.
    - apply bool_decide_eq_true. unfold getAttribute. simpl. apply lookup_singleton_eq. }
  split; [exact Hthere |]. split; [by apply Hnoop |]. by intros [? ?].
Qed.

(** A run of X9 on the example page. *)
Lemma ensureMarkStyles_injects_once_witness :
  ∃ p1, ensureMarkStyles Examples.formPage = (Normal tt, p1)
    ∧ ensureMarkStyles p1 = (Normal tt, p1)
    ∧ length (elements (documentElement p1)) = 9%nat.
Proof.
  destruct (ensureMarkStyles_injects_once Examples.formPage) as (p1 & Hrun & _ & Hagain & _);
    [by eexists |].
  exists p1. split; [exact Hrun |]. split; [exact Hagain |].
  injection Hrun as <-. reflexivity.
Defined.

(** *** Clicking and typing, further *)













(** *** Scrolling, waiting and finding *)

(** X14.  When [scrollPage] is given a selector, the offsets [x] and [y]
    play no part: an invalid selector makes it throw and an unmatched one
    leaves the page where it is and returns the current offsets, the
    viewport is never scrolled by [x], [y]; a match is scrolled into view. *)
Theorem scrollPage_selector_ignores_offsets `{B : Browser} (options : Options) (p : Page) :
  truthy (opt_selector options) = true →
  (∀ x y, scrollPage (optionsWith x y options) p = scrollPage options p)
  ∧ match querySelector DocumentNode (ToString (opt_selector options)) (documentElement p) with
    | Throw e => scrollPage options p = (Throw e, p)
    | Normal None => scrollPage options p = (Normal (scroll p), p)
    | Normal (Some el) =>
        ∃ p', scrollPage options p = (Normal (scroll p'), p')
              ∧ scroll p' = scrollIntoViewOffsets el (scroll p)
              ∧ documentElement p' = documentElement p ∧ events p' = events p
    end.
Proof.
  intros Hsel. split.
  - intros x y. unfold scrollPage. simpl. by rewrite Hsel.
  - unfold scrollPage. rewrite Hsel. unfold bind, liftRead.
    destruct (querySelector _ _ _) as [[el |] |]; try done.
    eexists. split; [reflexivity |]. done.
Qed.

(** A run of X14: no dialog on the example page, so nothing scrolls. *)
Lemma scrollPage_selector_ignores_offsets_witness :
  @scrollPage Mini.browser
    {| maxElements := None; includeHidden := VUndef; rightClick := VUndef;
       clearFirst := VUndef; humanDelay := VUndef; opt_x := Some 10; opt_y := Some 400;
       opt_selector := VStr "dialog" |} Examples.formPage
  = (Normal (0, 0), Examples.formPage).
Proof.
  exact (proj2 (@scrollPage_selector_ignores_offsets Mini.browser
           {| maxElements := None; includeHidden := VUndef; rightClick := VUndef;
              clearFirst := VUndef; humanDelay := VUndef; opt_x := Some 10;
              opt_y := Some 400; opt_selector := VStr "dialog" |}
           Examples.formPage eq_refl)).
Defined.





(** *** Form automation, further *)

Lemma asksChecked_true v :
  asksChecked v →
  strictEqBool v true || strictEqStr v "true" || strictEqStr v "1" = true.
Proof. by intros [-> | [-> | ->]]. Qed.

Lemma asksChecked_false v :
  ¬ asksChecked v →
  strictEqBool v true || strictEqStr v "true" || strictEqStr v "1" = false.
Proof.
  unfold asksChecked. intros Hno.
  destruct v as [| | [|] | n | s]; simpl; try done.
  - destruct Hno. by left.
  - destruct (String.eqb s "true") eqn:E1; simpl.
    + apply String.eqb_eq in E1. subst. destruct Hno. right. by left.
    + destruct (String.eqb s "1") eqn:E2; [| done].
      apply String.eqb_eq in E2. subst. destruct Hno. right. by right.
Qed.

(** X17.  For a checkbox or radio field (whose type is not 'select'),
    [fillForm] takes the values [true], "true" and "1" to ask for a checked
    box and every other value ("on", the number 1, ..) for an unchecked one.
    When the box is already as asked, nothing is clicked: the page is as it
    was and the entry is [{ target, ok: true }]. *)
Theorem fillForm_checkbox_already_set `{B : Browser}
    (f : Field) (rest : list Field) (results : list FieldResult) (p : Page)
    (el : Element) :
  f_type f ≠ VStr "select" →
  resolveTarget (f_target f) (documentElement p) = Normal el →
  type (props el) = Some "checkbox" ∨ type (props el) = Some "radio" →
  (checked (props el) = true ↔ asksChecked (f_value f)) →
  fillFormFrom (f :: rest) results p
  = fillFormFrom rest
      (results ++ [{| r_target := f_target f; r_ok := true; r_error := None |}]) p.
Proof.
  intros Hty Hres Hbox Hsame.
  rewrite fillFormFrom_step.
  assert (fillField f p = (Normal tt, p)) as ->; [| done].
  unfold fillField, bind at 1, liftRead. rewrite Hres.
  assert (strictEqStr (f_type f) "select" = false) as ->.
  { destruct (f_type f) as [| | | | s]; try done. simpl. apply String.eqb_neq. congruence. }
  assert (isCheckable el = true) as ->.
  { unfold isCheckable. destruct Hbox as [-> | ->]; done. }
  destruct (checked (props el)) eqn:Hc.
  - rewrite asksChecked_true by (by apply Hsame). done.
  - rewrite asksChecked_false; [done |]. intros Hask. apply Hsame in Hask. done.
Qed.

(** A run of X17: the value "on" does not ask for a checked box, so the
    unchecked box is left alone. *)
Lemma fillForm_checkbox_already_set_witness :
  @fillForm Mini.browser
    [{| f_target := Examples.bySelector "input"; f_value := VStr "on"; f_type := VUndef |}]
    checkboxPage
  = (Normal [{| r_target := Examples.bySelector "input"; r_ok := true; r_error := None |}],
     checkboxPage).
Proof.
  apply (@fillForm_checkbox_already_set Mini.browser
           {| f_target := Examples.bySelector "input"; f_value := VStr "on";
              f_type := VUndef |} [] [] checkboxPage
           (Examples.input 3 "checkbox" "on" [("name", "agree")], [])).
  - discriminate.
  - reflexivity.
  - left. reflexivity.
  - split; [discriminate |]. intros [H | [H | H]]; discriminate H.
Defined.

Lemma find_first_match {A} (f : A → bool) before o after :
  Forall (fun a => f a = false) before → f o = true →
  List.find f (before ++ o :: after) = Some o.
Proof.
  intros Hb Ho. induction Hb as [| a l Ha _ IH]; simpl; [by rewrite Ho |]. by rewrite Ha.
Qed.

Lemma selectFirst_first_match v before o after :
  Forall (fun a => optionMatches v a = false) before → optionMatches v o = true →
  let opts := selectFirst v false (before ++ o :: after) in
  List.map o_selected opts
  = replicate (length before) false ++ true :: replicate (length after) false
  ∧ List.map o_value opts = List.map o_value (before ++ o :: after)
  ∧ List.map o_text opts = List.map o_text (before ++ o :: after).
Proof.
  intros Hb Ho. induction Hb as [| a l Ha _ IH]; simpl.
  - rewrite Ho. simpl. rewrite !List.map_map. simpl.
    split; [| done]. f_equal. induction after as [| b after IHa]; simpl; [done |].
    by rewrite IHa.
  - rewrite Ha. simpl. destruct IH as (-> & -> & ->). done.
Qed.

(** X18.  For a field of type 'select' whose target is a single-choice
    select in which some option has the given value as its value or its
    text, [fillForm] focuses the select, selects the first such option in
    the order of the list and no other (whatever was selected before, and
    also when a later option matches too), leaves the values and texts of
    the options alone and sends the select exactly one change event; the
    field's entry is [{ target, ok: true }]. *)
Theorem fillForm_select_first_match `{B : Browser}
    (f : Field) (rest : list Field) (results : list FieldResult) (p : Page)
    (el : Element) (before after : list OptionEl) (o : OptionEl) :
  f_type f = VStr "select" →
  resolveTarget (f_target f) (documentElement p) = Normal el →
  findElement (eidOf el) (documentElement p) = Some el →
  options (props el) = Some (before ++ o :: after) →
  attributes (props el) !! "multiple" = None →
  Forall (fun a => optionMatches (f_value f) a = false) before →
  optionMatches (f_value f) o = true →
  ∃ p' el' opts',
    fillFormFrom (f :: rest) results p
    = fillFormFrom rest
        (results ++ [{| r_target := f_target f; r_ok := true; r_error := None |}]) p'
    ∧ events p' = events p ++ [domEvent (eidOf el) "change" None]
    ∧ activeElement p' = Some (eidOf el)
    ∧ findElement (eidOf el) (documentElement p') = Some el'
    ∧ options (props el') = Some opts'
    ∧ List.map o_selected opts'
      = replicate (length before) false ++ true :: replicate (length after) false
    ∧ List.map o_value opts' = List.map o_value (before ++ o :: after)
    ∧ List.map o_text opts' = List.map o_text (before ++ o :: after).
Proof.
  intros Hty Hres Hlive Hopts Hsingle Hb Ho.
  set (write := fun e : Props =>
         withOptions
           (selectFirst (f_value f) (bool_decide (is_Some (attributes e !! "multiple")))
              <$> options e) e).
  destruct (findElement_written (eidOf el) write (documentElement p) el)
    as (el' & Hfind' & Hp'); [done | done |].
  exists (withEvents (events p ++ [domEvent (eidOf el) "change" None])
            (withDocument (updateProps (eidOf el) write (documentElement p))
               (withActiveElement (Some (eidOf el)) p))),
         el', (selectFirst (f_value f) false (before ++ o :: after)).
  split.
  { rewrite fillFormFrom_step.
    assert (fillField f p
            = (Normal tt,
               withEvents (events p ++ [domEvent (eidOf el) "change" None])
                 (withDocument (updateProps (eidOf el) write (documentElement p))
                    (withActiveElement (Some (eidOf el)) p)))) as ->; [| done].
    unfold fillField, bind at 1, liftRead. rewrite Hres, Hty. simpl.
    unfold bind at 1, focus, modify. rewrite Hopts, (find_first_match _ _ _ _ Hb Ho).
    done. }
  split; [done |]. split; [done |]. split; [exact Hfind' |].
  split.
  { rewrite Hp'. unfold write. simpl. by rewrite Hopts, Hsingle. }
  by apply selectFirst_first_match.
Qed.

(** A run of X18: asking the select of the example page for "French"
    moves the selection from the first option to the second. *)
Lemma fillForm_select_first_match_witness :
  ∃ p' el' opts',
    @fillForm Mini.browser
      [{| f_target := Examples.bySelector "select"; f_value := VStr "French";
          f_type := VStr "select" |}] Examples.formPage
    = (Normal [{| r_target := Examples.bySelector "select"; r_ok := true;
                  r_error := None |}], p')
    ∧ events p' = [domEvent 8 "change" None]
    ∧ findElement 8 (documentElement p') = Some el'
    ∧ options (props el') = Some opts'
    ∧ List.map o_selected opts' = [false; true].
Proof.
  destruct (@fillForm_select_first_match Mini.browser
              {| f_target := Examples.bySelector "select"; f_value := VStr "French";
                 f_type := VStr "select" |} [] [] Examples.formPage
              (Examples.select 8
                 [ {| o_value := "de"; o_text := "German"; o_selected := true |};
                   {| o_value := "fr"; o_text := "French"; o_selected := false |} ], [])
              [ {| o_value := "de"; o_text := "German"; o_selected := true |} ] []
              {| o_value := "fr"; o_text := "French"; o_selected := false |}
              eq_refl eq_refl eq_refl eq_refl eq_refl
              ltac:(by repeat constructor) eq_refl)
    as (p' & el' & opts' & Hrun & Hev & _ & Hfind & Hopts & Hsel & _).
  exists p', el', opts'.
  split; [exact Hrun |]. split; [exact Hev |]. split; [exact Hfind |].
  split; [exact Hopts | exact Hsel].
Defined.

(** *** Resolving a target by its mark *)

Lemma cssPlain_string_of_uint d : cssPlain (NilEmpty.string_of_uint d) = true.
Proof. induction d; simpl; try done; by rewrite IHd. Qed.

Lemma cssPlain_NumberToString n : cssPlain (NumberToString n) = true.
Proof.
  unfold NumberToString. destruct (Z.to_int n) as [d | d]; simpl.
  - apply cssPlain_string_of_uint.
  - by rewrite cssPlain_string_of_uint.
Qed.

Lemma hd_error_filter {A} (f : A → bool) l : List.hd_error (List.filter f l) = List.find f l.
Proof. induction l as [| a l IH]; simpl; [done |]. by destruct (f a). Qed.

Lemma find_pointwise {A} (f g : A → bool) l :
  (∀ a, f a = g a) → List.find f l = List.find g l.
Proof. intros Hfg. induction l as [| a l IH]; simpl; [done |]. by rewrite Hfg, IH. Qed.

Lemma querySelector_mark_value `{B : Browser} (laws : BrowserLaws B) v d :
  cssPlain v = true →
  querySelector DocumentNode ("[" +:+ MARK_ATTR +:+ "=" +:+ dq +:+ v +:+ dq +:+ "]") d
  = Normal (List.find (hasMarkValue v) (elements d)).
Proof.
  intros Hv. destruct (css_mark_value B laws v Hv) as (f & Hf & Hfd).
  unfold querySelector, querySelectorAll. rewrite Hf. simpl. f_equal.
  rewrite hd_error_filter. apply find_pointwise. intros el. apply Hfd.
Qed.



(** The page that the labelling loop of [applySetOfMarks] starts from. *)
Lemma applySetOfMarks_run `{B : Browser} (laws : BrowserLaws B) (p : Page) :
  is_Some (rootElement p) →
  uniqueIds (documentElement p) →
  ∃ p2,
    applySetOfMarks DocumentNode p
    = (Normal (labelMap (visibleQualifying (documentElement p2)) 0 ∅),
       withDocument (labelDoc (visibleQualifying (documentElement p2)) 0 (documentElement p2))
         p2)
    ∧ uniqueIds (documentElement p2)
    ∧ (∀ el, el ∈ elements (documentElement p2) → getAttribute el MARK_ATTR = None).
Proof.
  intros Hroot Hu.
  set (d0 := documentElement p).
  set (els0 := List.filter hasMark (scope DocumentNode d0)).
  set (d1 := unmarkDoc els0 d0).
  pose proof (scope_unmarkDoc DocumentNode els0 d0) as Hel1. simpl in Hel1. fold d1 in Hel1.
  assert (uniqueIds d1) as Hu1.
  { unfold uniqueIds. rewrite Hel1, List.map_map.
    erewrite List.map_ext; [exact Hu |]. intros el. apply eidOf_unmarkAll. }
  assert (∀ el, el ∈ elements d1 → getAttribute el MARK_ATTR = None) as Hnone1.
  { intros el Hin. rewrite Hel1 in Hin. apply list_elem_of_fmap in Hin as (el0 & -> & Hin).
    by apply unmarkAll_filtered. }
  destruct (ensureMarkStyles_run (withDocument d1 p))
    as (p2 & Hrun2 & Hroot2 & Hkeep & Hnone2).
  { apply rootElement_elements. simpl. fold d1. rewrite Hel1.
    apply rootElement_elements in Hroot. fold d0 in Hroot.
    by destruct (elements d0). }
  simpl in Hkeep, Hnone2. destruct (Hkeep Hu1) as [Hu2 _].
  specialize (Hnone2 Hnone1 Hu1).
  exists p2. split; [| done].
  unfold applySetOfMarks, bind. rewrite (clearSetOfMarks_run laws). fold d0 els0 d1.
  rewrite Hrun2. unfold liftRead. rewrite (getInteractiveElements_run laws).
  apply markEach_run.
Qed.

Lemma visibleQualifying_elements d el : el ∈ visibleQualifying d → el ∈ elements d.
Proof.
  unfold visibleQualifying. intros He.
  apply list_elem_of_In, filter_In in He as [He _]. apply filter_In in He as [He _].
  by apply list_elem_of_In.
Qed.

(** In a document without marks, after the loop has labelled [es] the
    mark [String(i + 1)] is on the element at position [i] and on no other. *)
Lemma hasMarkValue_labelled d i el :
  uniqueIds d →
  (∀ el, el ∈ elements d → getAttribute el MARK_ATTR = None) →
  el ∈ elements d →
  hasMarkValue (markOf i) (labelled (visibleQualifying d) 0 el) = true
  ↔ visibleQualifying d !! i = Some el.
Proof.
  intros Hu Hnone Hin. set (es := visibleQualifying d).
  assert (NoDup (List.map eidOf es)) as Hndes.
  { unfold es, visibleQualifying. by do 2 apply NoDup_map_filter. }
  unfold hasMarkValue. rewrite bool_decide_eq_true. unfold getAttribute.
  destruct (decide (eidOf el ∈ List.map eidOf es)) as [Hlisted | Hout].
  - apply list_elem_of_fmap in Hlisted as (e & Heq & He).
    assert (el = e) as <-.
    { apply (NoDup_map_eq eidOf (elements d) el e Hu Hin); [| done].
      by apply visibleQualifying_elements. }
    apply list_elem_of_lookup in He as [j Hj].
    rewrite (labelled_props_in es 0 el j el Hndes Hj eq_refl). simpl.
    rewrite lookup_insert_eq. split.
    + intros [= Hji]. apply markOf_inj in Hji. by subst j.
    + intros Hi. assert (NoDup es) as Hnd by (by eapply NoDup_fmap_1).
      by rewrite (NoDup_lookup es i j el Hnd Hi Hj).
  - rewrite (labelled_props_notin es 0 el Hout).
    fold (getAttribute el MARK_ATTR). rewrite (Hnone el Hin). split; [done |].
    intros Hi. destruct Hout. apply list_elem_of_fmap. exists el. split; [done |].
    by eapply list_elem_of_lookup_2.
Qed.

Lemma find_labelled d i :
  uniqueIds d →
  (∀ el, el ∈ elements d → getAttribute el MARK_ATTR = None) →
  List.find (hasMarkValue (markOf i))
    (List.map (labelled (visibleQualifying d) 0) (elements d))
  = labelled (visibleQualifying d) 0 <$> visibleQualifying d !! i.
Proof.
  intros Hu Hnone.
  destruct (List.find _ _) as [y |] eqn:Hfind.
  - apply find_some in Hfind as [Hy Hmark].
    apply in_map_iff in Hy as (el & <- & Hel). apply list_elem_of_In in Hel.
    apply (hasMarkValue_labelled d i el Hu Hnone Hel) in Hmark. by rewrite Hmark.
  - destruct (visibleQualifying d !! i) as [e |] eqn:He; [| done].
    assert (e ∈ elements d) as Hin.
    { apply visibleQualifying_elements. by eapply list_elem_of_lookup_2. }
    pose proof (find_none _ _ Hfind (labelled (visibleQualifying d) 0 e)) as Hno.
    rewrite (proj2 (hasMarkValue_labelled d i e Hu Hnone Hin) He) in Hno.
    discriminate Hno. apply in_map. by apply list_elem_of_In.
Qed.

(** X20.  After a labelling pass over a document with a root element, the
    target [{ mark: i + 1 }], with the mark as a number or as its decimal
    string, resolves to the visible qualifying element at position [i]
    (counted from 0), which is also what the registry holds under that key;
    a mark beyond the number of labelled elements resolves to nothing and
    gives "No element with mark <mark>". *)
Theorem applySetOfMarks_then_resolveTarget `{B : Browser} (laws : BrowserLaws B) (p : Page) :
  is_Some (rootElement p) →
  uniqueIds (documentElement p) →
  ∃ markMap p',
    applySetOfMarks DocumentNode p = (Normal markMap, p')
    ∧ ∀ (i : nat) (t : Target),
        mark t = VStr (markOf i) ∨ mark t = VNum (Z.of_nat i + 1) →
        match visibleQualifying (documentElement p') !! i with
        | Some el =>
            resolveTarget (Some t) (documentElement p') = Normal el
            ∧ eidOf <$> markMap !! markOf i = Some (eidOf el)
        | None =>
            resolveTarget (Some t) (documentElement p')
            = Throw (Error ("No element with mark " +:+ markOf i))
            ∧ markMap !! markOf i = None
        end.
Proof.
  intros Hroot Hu.
  destruct (applySetOfMarks_run laws p Hroot Hu) as (p2 & Hrun & Hu2 & Hnone2).
  set (d2 := documentElement p2) in *. set (es := visibleQualifying d2) in *.
  exists (labelMap es 0 ∅), (withDocument (labelDoc es 0 d2) p2).
  split; [exact Hrun |]. cbn [documentElement withDocument]. intros i t Ht.
  assert (visibleQualifying (labelDoc es 0 d2) = List.map (labelled es 0) es) as Hafter.
  { unfold visibleQualifying at 1. rewrite elements_labelDoc, visibleQualifying_map; [done |].
    intros el. apply sameButMark_labelled. }
  assert (isStringOrNumber (mark t) = true ∧ ToString (mark t) = markOf i) as [Hm Hs].
  { by destruct Ht as [-> | ->]. }
  assert (resolveTarget (Some t) (labelDoc es 0 d2)
          = match labelled es 0 <$> es !! i with
            | Some el => Normal el
            | None => Throw (Error ("No element with mark " +:+ markOf i))
            end) as Hres.
  { unfold resolveTarget. rewrite Hm. unfold markSelector. rewrite Hs.
    rewrite (querySelector_mark_value laws (markOf i)) by apply cssPlain_NumberToString.
    rewrite elements_labelDoc. unfold es. rewrite (find_labelled d2 i Hu2 Hnone2).
    by destruct (visibleQualifying d2 !! i). }
  rewrite Hafter, Hres.
  change (List.map (labelled es 0) es) with (labelled es 0 <$> es).
  rewrite list_lookup_fmap.
  destruct (es !! i) as [e |] eqn:He; simpl.
  - split; [done |]. rewrite (labelMap_lookup es 0 ∅ i e He). simpl.
    f_equal. symmetry. apply eidOf_same, sameButMark_labelled.
  - split; [done |]. rewrite labelMap_other, lookup_empty; [done |].
    intros Hin. apply list_elem_of_fmap in Hin as (j & Hj & Hin).
    apply markOf_inj in Hj. subst j. apply list_elem_of_In, in_seq in Hin.
    apply lookup_ge_None in He. lia.
Qed.

(** A run of X20 on the example page: mark 2 is the input, mark 4 nothing. *)
Lemma applySetOfMarks_then_resolveTarget_witness :
  ∃ markMap p',
    @applySetOfMarks Mini.browser DocumentNode Examples.formPage = (Normal markMap, p')
    ∧ List.map eidOf (visibleQualifying (documentElement p')) = [5; 7; 8]%nat
    ∧ (∀ i t, mark t = VStr (markOf i) ∨ mark t = VNum (Z.of_nat i + 1) →
         match visibleQualifying (documentElement p') !! i with
         | Some el =>
             @resolveTarget Mini.browser (Some t) (documentElement p') = Normal el
             ∧ eidOf <$> markMap !! markOf i = Some (eidOf el)
         | None =>
             @resolveTarget Mini.browser (Some t) (documentElement p')
             = Throw (Error ("No element with mark " +:+ markOf i))
             ∧ markMap !! markOf i = None
         end).
Proof.
  destruct (@applySetOfMarks_then_resolveTarget Mini.browser Mini_laws Examples.formPage)
    as (markMap & p' & Hrun & Hres).
  - by eexists.
  - apply (bool_decide_unpack _). by vm_compute.
  - exists markMap, p'. split; [exact Hrun |]. split; [| exact Hres].
    assert (p' = snd (@applySetOfMarks Mini.browser DocumentNode Examples.formPage)) as ->
      by (by rewrite Hrun).
    by vm_compute.
Defined.

(** *** Messages that only read *)

(** X21.  A message of one of the six reading types, or of a type without
    a case, leaves the page exactly as it was (document, marks, scroll
    offsets, focus and event log), also when its handler throws. *)
Theorem onMessage_reading_types_keep_page `{B : Browser}
    (message : Message) (mutations : list Node) (p : Page) :
  m_type message ∈ readingTypes ∨ m_type message ∉ knownTypes →
  snd (onMessage message mutations p) = p.
Proof.
  intros [Hin | Hout].
  - unfold readingTypes in Hin.
    repeat (apply elem_of_cons in Hin as [Hty | Hin]);
      [.. | by apply elem_of_nil in Hin];
      unfold onMessage, handle; rewrite Hty; simpl;
      unfold bind, liftRead, waitForSelector, ret;
      repeat case_match; by simplify_eq.
  - unfold knownTypes in Hout. unfold onMessage, handle.
    repeat (apply eqb_of_not_elem in Hout as [-> Hout]).
    done.
Qed.

(** A run of X21: looking for the elements of a selector that is none. *)
Lemma onMessage_reading_types_keep_page_witness :
  snd (@onMessage Mini.browser
         {| m_type := "FIND_ELEMENTS"; m_options := None; m_maxDepth := None;
            m_target := None; m_text := VUndef; m_fields := None; m_selector := VStr "a >";
            m_limit := None; m_timeout := None |} [] Examples.formPage)
  = Examples.formPage.
Proof.
  apply (@onMessage_reading_types_keep_page Mini.browser).
  left. unfold readingTypes. simpl. repeat constructor.
Defined.
